(** * Bank Customer Churn Analysis: the filter chain, the churn aggregations
      and the fallback churn estimate of [app.py]

    The dashboard script loads a table of customers into a pandas
    [DataFrame], narrows it with the sidebar's selections, and charts the
    churn rate of the remaining rows per age group, balance range,
    geography, gender and activity status.  This development embeds the
    parts of the script that compute, leaving the rendering aside.

    Conventions of the embedding:
    - a [DataFrame] is the list of its rows, in index order; boolean
      indexing [df[mask]] is [filter];
    - the integer columns are [Z]; [Balance], a column of decimal amounts,
      is [Q] (a comparison of a float with an integer bound is exact, so
      nothing is lost for the filters and the bins);
    - a value of a float [Series] is [option Q], [None] standing for NaN;
      churn rates are exact rationals;
    - the fallback estimate is computed over the real numbers, its decimal
      literals read as exact fractions. *)

From Stdlib Require Import List String Ascii Bool ZArith QArith Qminmax Lia.
From Stdlib Require Import OrderedTypeEx Sorted Reals Lra.
Import ListNotations.

Local Open Scope string_scope.
Local Open Scope Z_scope.

(** ** The customer table *)

(** One row of [Churn_Modelling.csv], with the columns the script reads.
    [CustomerId] only tells rows apart; no computation looks at it. *)
Record Row : Type := mkRow {
  CustomerId : Z;
  Geography : string;
  Gender : string;
  Age : Z;
  Balance : Q;
  NumOfProducts : Z;
  IsActiveMember : Z;
  Exited : Z
}.

Definition DataFrame : Type := list Row.

(** ** pandas helpers used by the filter chain *)

(** [Series.isin(values)] on one element. *)
Definition isin {A : Type} (eqb : A -> A -> bool) (x : A) (values : list A) : bool :=
  existsb (eqb x) values.

(** [Series.unique().tolist()]: the distinct values, in order of first
    appearance. *)
Fixpoint unique (l : list string) : list string :=
  match l with
  | [] => []
  | x :: t => x :: filter (fun y => negb (String.eqb y x)) (unique t)
  end.

(** Truthiness of a Python list: [if xs:] holds when [xs] is not empty. *)
Definition truthy {A : Type} (xs : list A) : bool :=
  match xs with [] => false | _ :: _ => true end.

(** ** The sidebar's selections *)

(** The values the filter chain reads: the list built from the three
    geography checkboxes, the active-only checkbox, the list built from
    the two gender checkboxes, the two range sliders and the product
    multiselect. *)
Record Criteria : Type := mkCriteria {
  geographies : list string;
  active_only : bool;
  genders : list string;
  age_range : Z * Z;
  balance_range : Z * Z;
  products_sel : list Z
}.

(** Lines 281-287: [geographies] as appended from the checkboxes. *)
Definition geographies_of (france germany spain : bool) : list string :=
  (if france then ["France"] else []) ++
  (if germany then ["Germany"] else []) ++
  (if spain then ["Spain"] else []).

(** Lines 297-301: [genders] as appended from the checkboxes. *)
Definition genders_of (show_male show_female : bool) : list string :=
  (if show_male then ["Male"] else []) ++
  (if show_female then ["Female"] else []).

Definition set_geographies (g : list string) (c : Criteria) : Criteria :=
  mkCriteria g (active_only c) (genders c) (age_range c) (balance_range c)
    (products_sel c).

Definition set_genders (g : list string) (c : Criteria) : Criteria :=
  mkCriteria (geographies c) (active_only c) g (age_range c) (balance_range c)
    (products_sel c).

Definition set_products_sel (p : list Z) (c : Criteria) : Criteria :=
  mkCriteria (geographies c) (active_only c) (genders c) (age_range c)
    (balance_range c) p.

(** ** The filter chain (lines 281-327) *)

(** Lines 289-292: an empty geography list is replaced by every geography
    of the table, then the rows whose geography is listed are kept. *)
Definition step_geography (c : Criteria) (df : DataFrame) : DataFrame :=
  let geographies :=
    if negb (truthy (geographies c)) then unique (map Geography df)
    else geographies c in
  filter (fun r => isin String.eqb (Geography r) geographies) df.

(** Lines 294-295. *)
Definition step_active (c : Criteria) (filtered_df : DataFrame) : DataFrame :=
  if active_only c then filter (fun r => IsActiveMember r =? 1) filtered_df
  else filtered_df.

(** Lines 302-303. *)
Definition step_gender (c : Criteria) (filtered_df : DataFrame) : DataFrame :=
  if truthy (genders c)
  then filter (fun r => isin String.eqb (Gender r) (genders c)) filtered_df
  else filtered_df.

(** Lines 307-310. *)
Definition step_age (c : Criteria) (filtered_df : DataFrame) : DataFrame :=
  let '(min_age_sel, max_age_sel) := age_range c in
  filter (fun r => (min_age_sel <=? Age r) && (Age r <=? max_age_sel))
    filtered_df.

(** Lines 315-318: the balance is compared with the slider's integers. *)
Definition step_balance (c : Criteria) (filtered_df : DataFrame) : DataFrame :=
  let '(min_bal_sel, max_bal_sel) := balance_range c in
  filter (fun r => Qle_bool (inject_Z min_bal_sel) (Balance r)
                   && Qle_bool (Balance r) (inject_Z max_bal_sel))
    filtered_df.

(** Lines 323-325. *)
Definition step_products (c : Criteria) (filtered_df : DataFrame) : DataFrame :=
  if truthy (products_sel c)
  then filter (fun r => isin Z.eqb (NumOfProducts r) (products_sel c))
         filtered_df
  else filtered_df.

(** The whole chain, in the script's order.  Every column it reads is part
    of [Row], so the guards on column presence and the [try] blocks of the
    script never take their other branch. *)
Definition apply_filters (df : DataFrame) (c : Criteria) : DataFrame :=
  let filtered_df := step_geography c df in
  let filtered_df := step_active c filtered_df in
  let filtered_df := step_gender c filtered_df in
  let filtered_df := step_age c filtered_df in
  let filtered_df := step_balance c filtered_df in
  let filtered_df := step_products c filtered_df in
  filtered_df.

(** ** The sidebar's defaults (lines 233-276) *)

(** [int(x)] on a float truncates toward zero. *)
Definition int_of_Q (x : Q) : Z := Z.quot (Qnum x) (Zpos (Qden x)).

(** [Series.min()] and [Series.max()]; [None] is the NaN of an empty
    column, on which [int] raises. *)
Definition Z_column_min (col : list Z) : option Z :=
  match col with [] => None | x :: t => Some (fold_left Z.min t x) end.

Definition Z_column_max (col : list Z) : option Z :=
  match col with [] => None | x :: t => Some (fold_left Z.max t x) end.

Definition Q_column_min (col : list Q) : option Q :=
  match col with [] => None | x :: t => Some (fold_left Qmin t x) end.

Definition Q_column_max (col : list Q) : option Q :=
  match col with [] => None | x :: t => Some (fold_left Qmax t x) end.

(** Lines 263-265: the age slider starts at [(min_age, max_age)]. *)
Definition default_age_range (df : DataFrame) : option (Z * Z) :=
  match Z_column_min (map Age df), Z_column_max (map Age df) with
  | Some lo, Some hi => Some (lo, hi)
  | _, _ => None
  end.

(** Lines 269-271: the balance slider starts at [(min_bal, max_bal)],
    both passed through [int]. *)
Definition default_balance_range (df : DataFrame) : option (Z * Z) :=
  match Q_column_min (map Balance df), Q_column_max (map Balance df) with
  | Some lo, Some hi => Some (int_of_Q lo, int_of_Q hi)
  | _, _ => None
  end.

(** Line 275: [sorted(df["NumOfProducts"].unique().tolist())]. *)
Fixpoint insert_Z (k : Z) (ks : list Z) : list Z :=
  match ks with
  | [] => [k]
  | h :: t => if k <=? h then k :: ks else h :: insert_Z k t
  end.

Fixpoint unique_Z (l : list Z) : list Z :=
  match l with
  | [] => []
  | x :: t => x :: filter (fun y => negb (y =? x)) (unique_Z t)
  end.

Definition prod_options (df : DataFrame) : list Z :=
  fold_right insert_Z [] (unique_Z (map NumOfProducts df)).

(** The selections of a freshly loaded page: every checkbox of the two
    inclusion groups ticked, the active-only box clear, both sliders at
    their initial pair, every product count selected.  [None] when the
    table is empty and the slider bounds cannot be computed. *)
Definition default_criteria (df : DataFrame) : option Criteria :=
  match default_age_range df, default_balance_range df with
  | Some age, Some bal =>
      Some (mkCriteria (geographies_of true true true) false
              (genders_of true true) age bal (prod_options df))
  | _, _ => None
  end.

(** The same page with every box of the inclusion groups cleared and the
    product multiselect emptied. *)
Definition cleared_criteria (df : DataFrame) : option Criteria :=
  match default_age_range df, default_balance_range df with
  | Some age, Some bal =>
      Some (mkCriteria (geographies_of false false false) false
              (genders_of false false) age bal [])
  | _, _ => None
  end.

(** ** pandas helpers used by the aggregations *)

(** A float [Series] indexed by [K]: its entries in index order, a value
    being [None] for NaN. *)
Definition Series (K V : Type) : Type := list (K * option V).

(** A bin edge: a number, or [np.inf]. *)
Inductive edge : Type :=
| Fin (z : Z)
| Inf.

(** [lo < x] and [x <= hi] against an edge. *)
Definition above (lo : edge) (x : Q) : bool :=
  match lo with
  | Fin z => negb (Qle_bool x (inject_Z z))
  | Inf => false
  end.

Definition upto (hi : edge) (x : Q) : bool :=
  match hi with
  | Fin z => Qle_bool x (inject_Z z)
  | Inf => true
  end.

(** [pd.cut(x, bins=bins, labels=labels)] on one value, with the defaults
    the script leaves in place ([right=True], [include_lowest=False]): the
    label of the interval [(lo, hi]] that holds [x], NaN when none does. *)
Fixpoint cut_from (lo : edge) (rest : list edge) (labels : list string)
    (x : Q) : option string :=
  match rest, labels with
  | hi :: rest', l :: labels' =>
      if above lo x && upto hi x then Some l
      else cut_from hi rest' labels' x
  | _, _ => None
  end.

Definition cut (x : Q) (bins : list edge) (labels : list string) : option string :=
  match bins with
  | [] => None
  | lo :: rest => cut_from lo rest labels x
  end.

(** [Series.mean()] of an integer column; NaN on an empty one. *)
Definition total (col : list Z) : Z := fold_right Z.add 0 col.

Definition mean (col : list Z) : option Q :=
  match col with
  | [] => None
  | _ :: _ => Some (inject_Z (total col) / inject_Z (Z.of_nat (List.length col)))%Q
  end.

(** [series * 100]. *)
Definition times100 {K : Type} (s : Series K Q) : Series K Q :=
  map (fun kv => (fst kv, option_map (fun v => v * 100)%Q (snd kv))) s.

(** [series.reindex(index)]: the entries of [index], NaN where [series]
    has none. *)
Definition reindex {K V : Type} (eqb : K -> K -> bool) (index : list K)
    (s : Series K V) : Series K V :=
  map (fun k => (k, match find (fun kv => eqb (fst kv) k) s with
                    | Some kv => snd kv
                    | None => None
                    end)) index.

(** [series.fillna(d)]. *)
Definition fillna {K V : Type} (d : V) (s : Series K V) : Series K V :=
  map (fun kv => (fst kv, Some (match snd kv with Some v => v | None => d end))) s.

(** [series.astype(int)]: raises ([None]) on a NaN. *)
Fixpoint astype_int {K : Type} (s : Series K Z) : option (list (K * Z)) :=
  match s with
  | [] => Some []
  | (k, Some v) :: t => option_map (cons (k, v)) (astype_int t)
  | (_, None) :: _ => None
  end.

(** How many entries of a column, NaN aside, equal [k]. *)
Definition occurrences {K : Type} (eqb : K -> K -> bool) (k : K)
    (col : list (option K)) : Z :=
  Z.of_nat (List.length (filter (fun o => match o with
                                          | Some k' => eqb k' k
                                          | None => false
                                          end) col)).

(** [series.value_counts()]: NaN keys dropped, one entry per distinct key
    with the number of its occurrences.  pandas orders the entries by
    falling count; the script reindexes every such result before reading
    it, so the entries are kept here in order of first appearance. *)
Fixpoint value_counts {K : Type} (eqb : K -> K -> bool) (col : list (option K))
    : Series K Z :=
  match col with
  | [] => []
  | None :: t => value_counts eqb t
  | Some k :: t =>
      (k, Some (1 + occurrences eqb k t))
      :: filter (fun kv => negb (eqb (fst kv) k)) (value_counts eqb t)
  end.

(** [value_counts()] on a categorical column lists every category, the
    ones that do not occur at count 0 (again reindexed before it is
    read). *)
Definition value_counts_categorical (categories : list string)
    (col : list (option string)) : Series string Z :=
  map (fun l => (l, Some (occurrences String.eqb l col))) categories.

(** ** groupby *)

Section GroupBy.
Variable K : Type.
Variable cmp : K -> K -> comparison.

(** The group keys: the distinct values of the column, ascending. *)
Fixpoint insert_key (k : K) (ks : list K) : list K :=
  match ks with
  | [] => [k]
  | h :: t =>
      match cmp k h with
      | Lt => k :: ks
      | Eq => ks
      | Gt => h :: insert_key k t
      end
  end.

Definition sorted_keys (col : list K) : list K := fold_right insert_key [] col.

Definition same_key (a b : K) : bool :=
  match cmp a b with Eq => true | _ => false end.

(** [df.groupby(column)]: one group per key, ascending, each with its rows
    in table order. *)
Definition groupby (column : Row -> K) (df : DataFrame) : list (K * DataFrame) :=
  map (fun k => (k, filter (fun r => same_key (column r) k) df))
    (sorted_keys (map column df)).

(** [df.groupby(column)["Exited"].mean()]. *)
Definition groupby_mean_exited (column : Row -> K) (df : DataFrame) : Series K Q :=
  map (fun g => (fst g, mean (map Exited (snd g)))) (groupby column df).
End GroupBy.

Arguments insert_key {K} cmp k ks.
Arguments sorted_keys {K} cmp col.
Arguments same_key {K} cmp a b.
Arguments groupby {K} cmp column df.
Arguments groupby_mean_exited {K} cmp column df.

(** [df.groupby(column, observed=True)] on a categorical column with the
    categories [labels]: one group per category that occurs, in category
    order; rows whose category is NaN belong to no group. *)
Definition has_label (l : string) (o : option string) : bool :=
  match o with
  | Some l' => String.eqb l' l
  | None => false
  end.

Definition groupby_observed (labels : list string) (column : Row -> option string)
    (df : DataFrame) : list (string * DataFrame) :=
  filter (fun g => truthy (snd g))
    (map (fun l => (l, filter (fun r => has_label l (column r)) df)) labels).

(** ** The aggregations (lines 141-176) *)

Definition age_bins : list edge := [Fin 18; Fin 25; Fin 35; Fin 45; Fin 60; Inf].
Definition age_labels : list string := ["18-25"; "26-35"; "36-45"; "46-60"; "60+"].

Definition balance_bins : list edge :=
  [Fin 0; Fin 50000; Fin 100000; Fin 150000; Fin 200000; Inf].
Definition balance_labels : list string :=
  ["0-50K"; "50-100K"; "100-150K"; "150-200K"; "200K+"].

(** The [AgeGroup] and [BalanceGroup] columns. *)
Definition AgeGroup (r : Row) : option string :=
  cut (inject_Z (Age r)) age_bins age_labels.

Definition BalanceGroup (r : Row) : option string :=
  cut (Balance r) balance_bins balance_labels.

Definition get_churn_by_age (df : DataFrame) : Series string Q :=
  times100 (map (fun g => (fst g, mean (map Exited (snd g))))
              (groupby_observed age_labels AgeGroup df)).

Definition get_churn_by_balance (df : DataFrame) : Series string Q :=
  times100 (map (fun g => (fst g, mean (map Exited (snd g))))
              (groupby_observed balance_labels BalanceGroup df)).

Definition get_geo_churn (df : DataFrame) : Series string Q :=
  times100 (groupby_mean_exited String.compare Geography df).

Definition get_product_churn (df : DataFrame) : Series Z Q :=
  times100 (groupby_mean_exited Z.compare NumOfProducts df).

Definition get_gender_churn (df : DataFrame) : Series string Q :=
  times100 (groupby_mean_exited String.compare Gender df).

Definition get_active_churn (df : DataFrame) : Series Z Q :=
  times100 (fillna 0%Q (reindex Z.eqb [0; 1]
                          (groupby_mean_exited Z.compare IsActiveMember df))).

(** ** The sample counts shown with the charts *)

(** [try: counts = ....astype(int)  except Exception: counts = zeros]. *)
Definition counts_or_zeros {K : Type} (index : list K) (s : Series K Z)
    : list (K * Z) :=
  match astype_int s with
  | Some counts => counts
  | None => map (fun k => (k, 0)) index
  end.

(** Lines 410-419. *)
Definition counts_age (filtered_df : DataFrame) : list (string * Z) :=
  counts_or_zeros age_labels
    (fillna 0 (reindex String.eqb age_labels
                 (value_counts_categorical age_labels
                    (map AgeGroup filtered_df)))).

(** Lines 450-460. *)
Definition counts_balance (filtered_df : DataFrame) : list (string * Z) :=
  counts_or_zeros balance_labels
    (fillna 0 (reindex String.eqb balance_labels
                 (value_counts_categorical balance_labels
                    (map BalanceGroup filtered_df)))).

(** Lines 487-490. *)
Definition counts_geo (filtered_df : DataFrame) : list (string * Z) :=
  let index := map fst (get_geo_churn filtered_df) in
  counts_or_zeros index
    (fillna 0 (reindex String.eqb index
                 (value_counts String.eqb
                    (map (fun r => Some (Geography r)) filtered_df)))).

(** Lines 558-561. *)
Definition counts_gender (filtered_df : DataFrame) : list (string * Z) :=
  let index := map fst (get_gender_churn filtered_df) in
  counts_or_zeros index
    (fillna 0 (reindex String.eqb index
                 (value_counts String.eqb
                    (map (fun r => Some (Gender r)) filtered_df)))).

(** Lines 575-586: [IsActiveMember] mapped through
    [{1: "Active", 0: "Inactive"}], any other value becoming NaN. *)
Definition active_labels : list string := ["Inactive"; "Active"].

Definition active_label (r : Row) : option string :=
  if IsActiveMember r =? 1 then Some "Active"
  else if IsActiveMember r =? 0 then Some "Inactive"
  else None.

Definition counts_active (filtered_df : DataFrame) : list (string * Z) :=
  counts_or_zeros active_labels
    (fillna 0 (reindex String.eqb active_labels
                 (value_counts String.eqb (map active_label filtered_df)))).

(** The product chart draws no counts; the sample count of a product
    group is the size of the group [groupby] forms. *)
Definition group_sizes {K : Type} (groups : list (K * DataFrame)) : list (K * Z) :=
  map (fun g => (fst g, Z.of_nat (List.length (snd g)))) groups.

(** ** The headline metrics (lines 330-332) *)

Definition total_customers (filtered_df : DataFrame) : Z :=
  Z.of_nat (List.length filtered_df).

Definition churned_customers (filtered_df : DataFrame) : Z :=
  total (map Exited filtered_df).

Definition churn_rate (filtered_df : DataFrame) : Q :=
  if 0 <? total_customers filtered_df
  then (inject_Z (churned_customers filtered_df)
        / inject_Z (total_customers filtered_df) * 100)%Q
  else 0%Q.

(** ** The fallback churn estimate (lines 645-681) *)

(** [str.lower()] on the ASCII letters, which is what the labels of the
    table are made of. *)
Definition lower_ascii (ch : ascii) : ascii :=
  let n := nat_of_ascii ch in
  if (Nat.leb 65 n && Nat.leb n 90)%bool then ascii_of_nat (n + 32) else ch.

Fixpoint lower (s : string) : string :=
  match s with
  | EmptyString => EmptyString
  | String ch s' => String (lower_ascii ch) (lower s')
  end.

(** The inputs of the prediction tab: a slider, a number input and a
    select box of integers, a checkbox and two select boxes of labels. *)
Record Features : Type := mkFeatures {
  pred_age : Z;
  pred_balance : Z;
  pred_products : Z;
  pred_active : bool;
  pred_gender : string;
  pred_geo : string
}.

(** Lines 666-678, one [score += ...] per binding. *)
Definition heuristic_score (f : Features) : R :=
  let score := 0.0%R in
  let score := (score + IZR (pred_age f - 40) * 0.02)%R in
  let score := (score + IZR (pred_balance f - 50000) / 200000.0)%R in
  let score := (score + IZR (pred_products f - 1) * 0.15)%R in
  let score := (score + (if negb (pred_active f) then 0.4 else - 0.1))%R in
  let score :=
    (score + (if String.eqb (lower (pred_geo f)) "germany" then 0.1 else 0.0))%R in
  let score :=
    (score + (if String.eqb (lower (pred_gender f)) "male" then 0.05 else 0.0))%R in
  score.

(** Line 679. *)
Definition heuristic_prob (f : Features) : R :=
  (1 / (1 + exp (- heuristic_score f)))%R.

(** Lines 647-681: [prob] is what the uploaded model gave, if there is one
    and it ran; otherwise the heuristic; then it is clamped. *)
Definition predict (model_prob : option R) (f : Features) : R :=
  let prob :=
    match model_prob with
    | Some p => p
    | None => heuristic_prob f
    end in
  Rmax 0.0 (Rmin 1.0 prob).

(** *** The closed form as the specification words it

    Start at 0; add (age-40)*0.02, (balance-50000)/200000,
    (num_products-1)*0.15, 0.4 if inactive else -0.1, 0.1 if the geography
    is "Germany", 0.05 if the gender is "Male"; pass the sum through the
    logistic function and clamp to [0,1]. *)
Definition spec_score (f : Features) : R :=
  (IZR (pred_age f - 40) * 0.02
   + IZR (pred_balance f - 50000) / 200000
   + IZR (pred_products f - 1) * 0.15
   + (if pred_active f then - 0.1 else 0.4)
   + (if String.eqb (pred_geo f) "Germany" then 0.1 else 0)
   + (if String.eqb (pred_gender f) "Male" then 0.05 else 0))%R.

Definition logistic (x : R) : R := (1 / (1 + exp (- x)))%R.

Definition clamp01 (x : R) : R :=
  if Rlt_dec x 0 then 0%R else if Rlt_dec 1 x then 1%R else x.

Definition spec_prob (f : Features) : R := clamp01 (logistic (spec_score f)).

(** The same closed form with the two labels compared without regard to
    letter case. *)
Definition caseless_score (f : Features) : R :=
  (IZR (pred_age f - 40) * 0.02
   + IZR (pred_balance f - 50000) / 200000
   + IZR (pred_products f - 1) * 0.15
   + (if pred_active f then - 0.1 else 0.4)
   + (if String.eqb (lower (pred_geo f)) (lower "Germany") then 0.1 else 0)
   + (if String.eqb (lower (pred_gender f)) (lower "Male") then 0.05 else 0))%R.

(** ** The chain as one predicate

    What each step keeps, as a test on one row; [df] is the full table,
    from which an empty geography list is refilled. *)
Definition keeps_geography (c : Criteria) (df : DataFrame) (r : Row) : bool :=
  isin String.eqb (Geography r)
    (if negb (truthy (geographies c)) then unique (map Geography df)
     else geographies c).

Definition keeps_active (c : Criteria) (r : Row) : bool :=
  if active_only c then IsActiveMember r =? 1 else true.

Definition keeps_gender (c : Criteria) (r : Row) : bool :=
  if truthy (genders c) then isin String.eqb (Gender r) (genders c) else true.

Definition keeps_age (c : Criteria) (r : Row) : bool :=
  (fst (age_range c) <=? Age r) && (Age r <=? snd (age_range c)).

Definition keeps_balance (c : Criteria) (r : Row) : bool :=
  Qle_bool (inject_Z (fst (balance_range c))) (Balance r)
  && Qle_bool (Balance r) (inject_Z (snd (balance_range c))).

Definition keeps_products (c : Criteria) (r : Row) : bool :=
  if truthy (products_sel c) then isin Z.eqb (NumOfProducts r) (products_sel c)
  else true.

Definition keeps (c : Criteria) (df : DataFrame) (r : Row) : bool :=
  keeps_geography c df r && keeps_active c r && keeps_gender c r
  && keeps_age c r && keeps_balance c r && keeps_products c r.

(** ** Vocabulary of the statements *)

(** The groups split the table: every row lies in the group of one label
    and of no other. *)
Definition partitions {K : Type} (groups : list (K * DataFrame)) (df : DataFrame)
    : Prop :=
  forall r, In r df ->
    exists k g, In (k, g) groups /\ In r g
                /\ forall k' g', In (k', g') groups -> In r g' -> k' = k.

(** The order [groupby] sorts labels by: Python's order on [str], character
    by character, a proper prefix first. *)
Definition label_before (a b : string) : Prop := String.compare a b = Lt.

(** A mean of flags that is a number, between 0 and 1. *)
Definition fraction (v : option Q) : Prop :=
  match v with
  | Some q => (0 <= q /\ q <= 1)%Q
  | None => False
  end.

(** A churn rate that is a number, between 0 and 100. *)
Definition percentage (v : option Q) : Prop :=
  match v with
  | Some q => (0 <= q /\ q <= 100)%Q
  | None => False
  end.

(** ** Tables and selections the statements below are tried on *)

Definition row (id : Z) (geo gender : string) (age : Z) (balance : Q)
    (products active exited : Z) : Row :=
  mkRow id geo gender age balance products active exited.

Definition sample_df : DataFrame :=
  [ row 1 "France"  "Female" 42 0                  1 1 1;
    row 2 "Spain"   "Female" 41 (8380786 # 100)    1 0 0;
    row 3 "France"  "Female" 42 (15966080 # 100)   3 1 1;
    row 4 "Germany" "Male"   30 60000              2 0 1;
    row 5 "Germany" "Female" 30 40000              2 1 0;
    row 6 "Spain"   "Male"   25 (25089809 # 100)   1 1 0 ].

(** A table without any Spanish customer, any inactive customer or any
    customer older than 35. *)
Definition young_df : DataFrame :=
  [ row 1 "France"  "Female" 30 60000 1 1 1;
    row 2 "Germany" "Male"   31 40000 2 1 0 ].

(** A table whose first customer sits on the lowest edge of both bin
    lists. *)
Definition edge_df : DataFrame :=
  [ row 1 "France" "Female" 18 0     1 1 1;
    row 2 "Spain"  "Male"   30 60000 2 0 0 ].

(** Germany only, everything else left open. *)
Definition germany_only : Criteria :=
  mkCriteria ["Germany"] false ["Male"; "Female"] (18, 92) (0, 251000) [1; 2; 3].

Definition reference_customer : Features :=
  mkFeatures 40 50000 1 true "Female" "France".

(** * Further parts of the script *)

From Stdlib Require Import Permutation.

(** ** The filter steps as a family *)

(** The six steps of the chain, to speak of the orders they could be run
    in.  Each step filters the table it is given; the geography step
    refills an empty list from that table. *)
Inductive Step : Type :=
| Geography_step
| Active_step
| Gender_step
| Age_step
| Balance_step
| Products_step.

Definition run_step (s : Step) : Criteria -> DataFrame -> DataFrame :=
  match s with
  | Geography_step => step_geography
  | Active_step => step_active
  | Gender_step => step_gender
  | Age_step => step_age
  | Balance_step => step_balance
  | Products_step => step_products
  end.

(** The order of lines 281-327. *)
Definition script_order : list Step :=
  [Geography_step; Active_step; Gender_step; Age_step; Balance_step;
   Products_step].

Definition run_steps (steps : list Step) (c : Criteria) (df : DataFrame)
    : DataFrame :=
  fold_left (fun filtered_df s => run_step s c filtered_df) steps df.

(** The test a step applies to a row, an empty geography list being
    refilled from [df]. *)
Definition step_test (s : Step) (c : Criteria) (df : DataFrame) (r : Row) : bool :=
  match s with
  | Geography_step => keeps_geography c df r
  | Active_step => keeps_active c r
  | Gender_step => keeps_gender c r
  | Age_step => keeps_age c r
  | Balance_step => keeps_balance c r
  | Products_step => keeps_products c r
  end.

(** ** The headline comparison (lines 341-342) *)

(** [(df["Exited"].mean() * 100) if len(df) > 0 else 0]. *)
Definition overall_churn_rate (df : DataFrame) : option Q :=
  if 0 <? Z.of_nat (List.length df)
  then option_map (fun m => m * 100)%Q (mean (map Exited df))
  else Some 0%Q.

(** [churn_rate - overall_churn_rate], the rate being that of the filtered
    table. *)
Definition delta_churn (filtered_df df : DataFrame) : option Q :=
  option_map (fun overall => churn_rate filtered_df - overall)%Q
    (overall_churn_rate df).

(** ** Small-sample warnings (lines 187-200) *)

(** The series the script passes to [_warn_small_groups]: a column of
    labels, or the categorical column [pd.cut] returns, which knows its
    categories.  [None] is NaN. *)
Inductive LabelSeries : Type :=
| Plain (col : list (option string))
| Categorical (categories : list string) (col : list (option string)).

Definition label_eqb (a b : option string) : bool :=
  match a, b with
  | Some x, Some y => String.eqb x y
  | None, None => true
  | _, _ => false
  end.

Definition nan_count (col : list (option string)) : Z :=
  Z.of_nat (List.length (filter (fun o => match o with
                                          | None => true
                                          | Some _ => false
                                          end) col)).

(** [series.value_counts(dropna=False)]: NaN is counted like a label; a
    categorical column lists every category, also at count 0, and NaN
    only if it occurs.  As for [value_counts], the entries are not put in
    the order of falling count. *)
Definition value_counts_keep_nan (series : LabelSeries) : Series (option string) Z :=
  match series with
  | Plain col => value_counts label_eqb (map Some col)
  | Categorical categories col =>
      (map (fun l => (Some l, Some (occurrences String.eqb l col))) categories
       ++ (if 0 <? nan_count col then [(None, Some (nan_count col))] else []))%list
  end.

(** [counts[counts < min_n]], as the pairs [small.items()] yields. *)
Definition small_groups (counts : Series (option string) Z) (min_n : Z)
    : list (option string * Z) :=
  flat_map (fun kv => match snd kv with
                      | Some cnt => if cnt <? min_n then [(fst kv, cnt)] else []
                      | None => []
                      end) counts.

(** [_warn_small_groups(series, min_n)]: the groups named in the warning,
    [None] when no warning is shown.  The wording of the message is left
    out. *)
Definition warn_small_groups (series : LabelSeries) (min_n : Z)
    : option (list (option string * Z)) :=
  let counts := value_counts_keep_nan series in
  let small := small_groups counts min_n in
  if truthy small then Some small else None.

(** Lines 409-411, 482-483 and 607: the warnings of the age chart, of the
    geography chart and of the whole filtered table. *)
Definition warn_age_groups (filtered_df : DataFrame) :=
  warn_small_groups (Categorical age_labels (map AgeGroup filtered_df)) 30.

Definition warn_geography (filtered_df : DataFrame) :=
  warn_small_groups (Plain (map (fun r => Some (Geography r)) filtered_df)) 30.

Definition warn_overall (filtered_df : DataFrame) :=
  warn_small_groups (Plain (repeat (Some "all") (List.length filtered_df))) 30.

(** ** The value axis of the charts (lines 429, 466, 495) *)

(** [item > best] on floats: false as soon as one side is NaN. *)
Definition float_gt (a b : option Q) : bool :=
  match a, b with
  | Some x, Some y => negb (Qle_bool x y)
  | _, _ => false
  end.

(** Python's [max] over a non-empty sequence of floats. *)
Definition py_max (first : option Q) (rest : list (option Q)) : option Q :=
  fold_left (fun best item => if float_gt item best then item else best)
    rest first.

(** [(max(series.values) if len(series) > 0 else 1) * factor], the upper
    end of the axis; the lower end is 0. *)
Definition axis_top {K : Type} (series : Series K Q) (factor : Q) : option Q :=
  option_map (fun m => m * factor)%Q
    (match map snd series with
     | [] => Some 1%Q
     | v :: rest => py_max v rest
     end).

Definition age_axis_top (filtered_df : DataFrame) : option Q :=
  axis_top (get_churn_by_age filtered_df) (12 # 10).

Definition balance_axis_top (filtered_df : DataFrame) : option Q :=
  axis_top (get_churn_by_balance filtered_df) (125 # 100).

Definition geo_axis_top (filtered_df : DataFrame) : option Q :=
  axis_top (get_geo_churn filtered_df) (125 # 100).

(** ** The uploaded model (lines 647-662) *)

(** What an unpickled model does on the feature frame: each of its two
    methods returns a number or raises ([None]). *)
Record Model : Type := mkModel {
  predict_proba : option R;
  model_predict : option R
}.

(** [prob] after lines 647-662.  The argument is [None] without an upload,
    [Some None] when [pickle.loads] raises.  [predict_proba] is tried
    first, [predict] when it raises; when that raises too, the error is
    reported and [prob] stays [None]. *)
Definition model_prob (uploaded_model : option (option Model)) : option R :=
  match uploaded_model with
  | None => None
  | Some None => None
  | Some (Some model) =>
      match predict_proba model with
      | Some p => Some p
      | None => model_predict model
      end
  end.

(** The whole button handler. *)
Definition predict_churn (uploaded_model : option (option Model)) (f : Features) : R :=
  predict (model_prob uploaded_model) f.

(** ** Vocabulary of the further statements *)

(** The sum of rate times count over the bars of a chart, bar and count
    paired by position. *)
Definition rate_times_count (rate : option Q) (count : Z) : Q :=
  match rate with
  | Some q => (q * inject_Z count)%Q
  | None => 0%Q
  end.

Definition weighted_total {K : Type} (rates : Series K Q) (counts : list (K * Z)) : Q :=
  fold_right Qplus 0%Q
    (map (fun p => rate_times_count (snd (fst p)) (snd (snd p)))
       (combine rates counts)).

(** The labels of the checkboxes. *)
Definition known_geographies : list string := geographies_of true true true.
Definition known_genders : list string := genders_of true true.

(** Moving a slider, ticking the active-only box. *)
Definition set_age_range (range : Z * Z) (c : Criteria) : Criteria :=
  mkCriteria (geographies c) (active_only c) (genders c) range (balance_range c)
    (products_sel c).

Definition set_balance_range (range : Z * Z) (c : Criteria) : Criteria :=
  mkCriteria (geographies c) (active_only c) (genders c) (age_range c) range
    (products_sel c).

Definition set_active_only (b : bool) (c : Criteria) : Criteria :=
  mkCriteria (geographies c) b (genders c) (age_range c) (balance_range c)
    (products_sel c).

(** Active members only, everything else left open. *)
Definition active_members_only : Criteria :=
  mkCriteria [] true [] (18, 92) (0, 251000) [].

(** ** The age slider of the prediction tab (line 627) *)

(** [Series.median()] of an integer column: the middle value of the sorted
    column, the mean of the two middle values when their number is even,
    NaN on an empty column. *)
Definition median (col : list Z) : option Q :=
  let sorted := fold_right insert_Z [] col in
  let n := List.length col in
  match n with
  | O => None
  | S _ =>
      if Nat.even n
      then Some ((inject_Z (nth (Nat.div n 2 - 1)%nat sorted 0%Z)
                  + inject_Z (nth (Nat.div n 2) sorted 0%Z)) / 2)%Q
      else Some (inject_Z (nth (Nat.div n 2) sorted 0))
  end.

(** The arguments of [st.slider]: lowest value, highest value and starting
    value, [int(min)], [int(max)] and [int(median)] of the ages; [None]
    when the table is empty and [int] raises on NaN. *)
Definition pred_age_slider (df : DataFrame) : option (Z * Z * Z) :=
  match Z_column_min (map Age df), Z_column_max (map Age df),
        median (map Age df) with
  | Some lo, Some hi, Some m => Some (lo, hi, int_of_Q m)
  | _, _, _ => None
  end.

(** An inactive man in Germany. *)
Definition german_customer : Features :=
  mkFeatures 55 120000 3 false "Male" "Germany".

(** The sample count of a category: the number of rows whose value in the
    column is the category. *)
Definition sample_count {K : Type} (eqb : K -> K -> bool) (column : Row -> K)
    (k : K) (df : DataFrame) : Z :=
  Z.of_nat (List.length (filter (fun r => eqb (column r) k) df)).

(** * Properties *)

(** ** Facts on [filter] *)

Section FilterFacts.
Context {A : Type}.

Lemma filter_twice (f g : A -> bool) (l : list A) :
  filter f (filter g l) = filter (fun x => g x && f x) l.
Proof.
  induction l as [| x l IH]; simpl; [reflexivity|].
  destruct (g x); simpl; [destruct (f x)|]; now rewrite IH.
Qed.

Lemma filter_all_true (f : A -> bool) (l : list A) :
  (forall x, In x l -> f x = true) -> filter f l = l.
Proof.
  induction l as [| x l IH]; simpl; intros H; [reflexivity|].
  rewrite (H x (or_introl eq_refl)). f_equal. apply IH. intros y Hy.
  apply H. now right.
Qed.

Lemma filter_all_false (f : A -> bool) (l : list A) :
  (forall x, In x l -> f x = false) -> filter f l = [].
Proof.
  induction l as [| x l IH]; simpl; intros H; [reflexivity|].
  rewrite (H x (or_introl eq_refl)). apply IH. intros y Hy.
  apply H. now right.
Qed.

Lemma filter_pointwise (f g : A -> bool) (l : list A) :
  (forall x, In x l -> f x = g x) -> filter f l = filter g l.
Proof.
  induction l as [| x l IH]; simpl; intros H; [reflexivity|].
  rewrite (H x (or_introl eq_refl)), IH; [reflexivity|].
  intros y Hy. apply H. now right.
Qed.
End FilterFacts.

(** ** The filter chain *)

Lemma in_unique (l : list string) (x : string) : In x (unique l) <-> In x l.
Proof.
  induction l as [| y l IH]; simpl; [tauto|].
  rewrite filter_In, IH, negb_true_iff, String.eqb_neq.
  destruct (string_dec y x) as [->|Hne]; [tauto|].
  split; [tauto|]. intros [H|H]; [tauto|]. right. split; [exact H|congruence].
Qed.

Lemma isin_string_true (x : string) (l : list string) :
  isin String.eqb x l = true <-> In x l.
Proof.
  unfold isin. rewrite existsb_exists. split.
  - intros [y [Hy He]]. apply String.eqb_eq in He. now subst.
  - intros H. exists x. split; [exact H|apply String.eqb_refl].
Qed.

(** Each step is a [filter] by its test. *)
Lemma step_geography_filter (c : Criteria) (df : DataFrame) :
  step_geography c df = filter (keeps_geography c df) df.
Proof. reflexivity. Qed.

Lemma step_active_filter (c : Criteria) (l : DataFrame) :
  step_active c l = filter (keeps_active c) l.
Proof.
  unfold step_active, keeps_active. destruct (active_only c); [reflexivity|].
  symmetry. now apply filter_all_true.
Qed.

Lemma step_gender_filter (c : Criteria) (l : DataFrame) :
  step_gender c l = filter (keeps_gender c) l.
Proof.
  unfold step_gender, keeps_gender. destruct (truthy (genders c)); [reflexivity|].
  symmetry. now apply filter_all_true.
Qed.

Lemma step_age_filter (c : Criteria) (l : DataFrame) :
  step_age c l = filter (keeps_age c) l.
Proof. unfold step_age, keeps_age. now destruct (age_range c). Qed.

Lemma step_balance_filter (c : Criteria) (l : DataFrame) :
  step_balance c l = filter (keeps_balance c) l.
Proof. unfold step_balance, keeps_balance. now destruct (balance_range c). Qed.

Lemma step_products_filter (c : Criteria) (l : DataFrame) :
  step_products c l = filter (keeps_products c) l.
Proof.
  unfold step_products, keeps_products.
  destruct (truthy (products_sel c)); [reflexivity|].
  symmetry. now apply filter_all_true.
Qed.

(** The chain keeps exactly the rows that pass every test, in table order. *)
Lemma apply_filters_filter (df : DataFrame) (c : Criteria) :
  apply_filters df c = filter (keeps c df) df.
Proof.
  unfold apply_filters.
  rewrite step_products_filter, step_balance_filter, step_age_filter,
    step_gender_filter, step_active_filter, step_geography_filter.
  rewrite !filter_twice. apply filter_pointwise. intros r _. unfold keeps.
  now rewrite !andb_assoc.
Qed.

Lemma step_geography_empty (c : Criteria) (df : DataFrame) :
  step_geography (set_geographies [] c) df = df.
Proof.
  unfold step_geography. simpl. apply filter_all_true. intros r Hr.
  apply isin_string_true, in_unique, in_map, Hr.
Qed.

(** On [sample_df], ticking Germany alone keeps the two German customers,
    in table order. *)
Example germany_only_keeps_german_rows :
  apply_filters sample_df germany_only
  = [ row 4 "Germany" "Male" 30 60000 2 0 1;
      row 5 "Germany" "Female" 30 40000 2 1 0 ].
Proof. reflexivity. Qed.

(** C1. An empty inclusion list constrains nothing: with no geography
    ticked the geography step returns the whole table and the chain yields
    what the five other steps alone yield; likewise with no gender ticked
    and with no product count selected, each one whatever the rest of the
    selection is. *)
Theorem empty_selection_is_no_constraint (df : DataFrame) (c : Criteria) :
  (step_geography (set_geographies [] c) df = df
   /\ apply_filters df (set_geographies [] c)
      = step_products c (step_balance c (step_age c
          (step_gender c (step_active c df)))))
  /\ (step_gender (set_genders [] c) df = df
      /\ apply_filters df (set_genders [] c)
         = step_products c (step_balance c (step_age c
             (step_active c (step_geography c df)))))
  /\ (step_products (set_products_sel [] c) df = df
      /\ apply_filters df (set_products_sel [] c)
         = step_balance c (step_age c (step_gender c
             (step_active c (step_geography c df))))).
Proof.
  repeat split; try reflexivity.
  - apply step_geography_empty.
  - unfold apply_filters. rewrite step_geography_empty. reflexivity.
Qed.

(** C7. The chain is a total function, and a selection no row can meet
    gives the empty table: a slider pair with its lower end above its
    upper end, or a pair that lies wholly outside the ages (or the
    balances) of the table. *)
Theorem apply_filters_unsatisfiable_range (df : DataFrame) (c : Criteria) :
  fst (age_range c) > snd (age_range c)
  \/ fst (balance_range c) > snd (balance_range c)
  \/ (forall r, In r df -> Age r < fst (age_range c) \/ snd (age_range c) < Age r)
  \/ (forall r, In r df ->
        (Balance r < inject_Z (fst (balance_range c))
         \/ inject_Z (snd (balance_range c)) < Balance r)%Q) ->
  apply_filters df c = [].
Proof.
  intros H. rewrite apply_filters_filter. apply filter_all_false. intros r Hr.
  unfold keeps.
  assert (Hab : keeps_age c r = false \/ keeps_balance c r = false).
  { unfold keeps_age, keeps_balance.
    destruct H as [H | [H | [H | H]]].
    - left. apply andb_false_iff.
      destruct (Z.leb_spec (fst (age_range c)) (Age r)); [right|now left].
      apply Z.leb_gt. lia.
    - right. apply andb_false_iff.
      destruct (Qle_bool (inject_Z (fst (balance_range c))) (Balance r)) eqn:E1;
        [right|now left].
      destruct (Qle_bool (Balance r) (inject_Z (snd (balance_range c)))) eqn:E2;
        [|reflexivity].
      apply Qle_bool_iff in E1, E2.
      assert (Hle : (inject_Z (fst (balance_range c))
                     <= inject_Z (snd (balance_range c)))%Q)
        by (eapply Qle_trans; eassumption).
      rewrite <- Zle_Qle in Hle. lia.
    - left. apply andb_false_iff. destruct (H r Hr) as [Hlt | Hlt].
      + left. apply Z.leb_gt. exact Hlt.
      + right. apply Z.leb_gt. exact Hlt.
    - right. apply andb_false_iff. destruct (H r Hr) as [Hlt | Hlt].
      + left. apply not_true_is_false. intros E. apply Qle_bool_iff in E.
        apply Qle_not_lt in E. contradiction.
      + right. apply not_true_is_false. intros E. apply Qle_bool_iff in E.
        apply Qle_not_lt in E. contradiction. }
  destruct Hab as [E | E]; rewrite E;
    repeat rewrite ?andb_false_r, ?andb_false_l; reflexivity.
Qed.

(** On [sample_df], the age pair (60, 30) keeps no row. *)
Lemma apply_filters_unsatisfiable_range_witness :
  apply_filters sample_df (mkCriteria [] false [] (60, 30) (0, 251000) []) = [].
Proof.
  apply (apply_filters_unsatisfiable_range sample_df
           (mkCriteria [] false [] (60, 30) (0, 251000) [])).
  left. simpl. lia.
Defined.

(** ** The sidebar's defaults *)

(** With nothing selected in the inclusion groups, the active-only box
    clear and slider pairs that bracket every age and every balance of
    the table, the chain returns the table as it is. *)
Lemma apply_filters_identity (df : DataFrame) (c : Criteria) :
  geographies c = [] -> active_only c = false -> genders c = [] ->
  products_sel c = [] ->
  (forall r, In r df -> fst (age_range c) <= Age r <= snd (age_range c)) ->
  (forall r, In r df ->
     (inject_Z (fst (balance_range c)) <= Balance r
      /\ Balance r <= inject_Z (snd (balance_range c)))%Q) ->
  apply_filters df c = df.
Proof.
  intros Hg Ha Hs Hp Hage Hbal. rewrite apply_filters_filter.
  apply filter_all_true. intros r Hr.
  unfold keeps, keeps_geography, keeps_active, keeps_gender, keeps_age,
    keeps_balance, keeps_products.
  rewrite Hg, Ha, Hs, Hp. cbn [truthy negb].
  destruct (Hage r Hr) as [H1 H2]. destruct (Hbal r Hr) as [H3 H4].
  apply Z.leb_le in H1, H2. apply Qle_bool_iff in H3, H4.
  rewrite H1, H2, H3, H4.
  replace (isin String.eqb (Geography r) (unique (map Geography df))) with true.
  - reflexivity.
  - symmetry. apply isin_string_true, in_unique, in_map, Hr.
Qed.

Lemma fold_min_below (t : list Z) :
  forall x y, In y (x :: t) -> fold_left Z.min t x <= y.
Proof.
  induction t as [| z t IH]; intros x y; cbn [fold_left].
  - intros [Hy | []]. lia.
  - intros [Hy | [Hy | Hy]].
    + pose proof (IH (Z.min x z) (Z.min x z) (or_introl eq_refl)). lia.
    + pose proof (IH (Z.min x z) (Z.min x z) (or_introl eq_refl)). lia.
    + apply IH. now right.
Qed.

Lemma fold_max_above (t : list Z) :
  forall x y, In y (x :: t) -> y <= fold_left Z.max t x.
Proof.
  induction t as [| z t IH]; intros x y; cbn [fold_left].
  - intros [Hy | []]. lia.
  - intros [Hy | [Hy | Hy]].
    + pose proof (IH (Z.max x z) (Z.max x z) (or_introl eq_refl)). lia.
    + pose proof (IH (Z.max x z) (Z.max x z) (or_introl eq_refl)). lia.
    + apply IH. now right.
Qed.

(** The age slider starts at a pair that brackets every age. *)
Lemma default_age_range_brackets (df : DataFrame) (lo hi : Z) :
  default_age_range df = Some (lo, hi) ->
  forall r, In r df -> lo <= Age r <= hi.
Proof.
  unfold default_age_range, Z_column_min, Z_column_max.
  destruct (map Age df) as [| x t] eqn:E; [discriminate|].
  intros [= <- <-] r Hr.
  assert (Hin : In (Age r) (x :: t)) by (rewrite <- E; now apply in_map).
  split; [now apply fold_min_below|now apply fold_max_above].
Qed.

(** Truncation falls short of a positive amount that is not whole. *)
Lemma int_of_Q_short (q : Q) :
  (0 <= q)%Q -> (forall z, ~ (q == inject_Z z)%Q) -> (inject_Z (int_of_Q q) < q)%Q.
Proof.
  destruct q as [n d]. unfold int_of_Q, Qle, Qlt, Qeq. cbn [Qnum Qden inject_Z].
  intros Hn Hfrac. rewrite Z.mul_1_r in Hn |- *.
  rewrite Z.quot_div_nonneg by lia.
  pose proof (Z.mul_div_le n (Z.pos d) ltac:(lia)) as Hle.
  destruct (Z.eq_dec (n / Z.pos d * Z.pos d) n) as [E | E]; [|lia].
  exfalso. apply (Hfrac (n / Z.pos d)). lia.
Qed.

Lemma fold_Qmax_above (t : list Q) :
  forall x y, In y (x :: t) -> (y <= fold_left Qmax t x)%Q.
Proof.
  induction t as [| z t IH]; intros x y; cbn [fold_left].
  - intros [<- | []]. apply Qle_refl.
  - intros [Hy | [Hy | Hy]].
    + subst y. eapply Qle_trans; [apply (Q.le_max_l x z)|].
      apply IH. now left.
    + subst y. eapply Qle_trans; [apply (Q.le_max_r x z)|].
      apply IH. now left.
    + apply IH. now right.
Qed.

Lemma fold_Qmax_attained (t : list Q) :
  forall x, In (fold_left Qmax t x) (x :: t).
Proof.
  induction t as [| z t IH]; intros x; cbn [fold_left]; [now left|].
  destruct (IH (Qmax x z)) as [H | H]; [|right; now right].
  rewrite <- H. unfold Qmax, GenericMinMax.gmax.
  destruct (x ?= z)%Q; [now left|right; now left|now left].
Qed.

(** The slip in general: whenever the sliders are at their starting
    pairs, a customer whose balance is the largest of the table, positive
    and not a whole number, is filtered out. *)
Lemma default_page_drops_fractional_maximum (df : DataFrame) (c : Criteria)
    (r : Row) :
  default_balance_range df = Some (balance_range c) ->
  In r df ->
  (forall r', In r' df -> (Balance r' <= Balance r)%Q) ->
  (0 <= Balance r)%Q ->
  (forall z, ~ (Balance r == inject_Z z)%Q) ->
  ~ In r (apply_filters df c).
Proof.
  intros Hdef Hr Hmax Hpos Hfrac Hin.
  rewrite apply_filters_filter in Hin. apply filter_In in Hin.
  destruct Hin as [_ Hk]. unfold keeps in Hk.
  apply andb_prop in Hk. destruct Hk as [Hk _].
  apply andb_prop in Hk. destruct Hk as [_ Hk].
  unfold keeps_balance in Hk. apply andb_prop in Hk. destruct Hk as [_ Hk].
  apply Qle_bool_iff in Hk.
  unfold default_balance_range, Q_column_min, Q_column_max in Hdef.
  destruct (map Balance df) as [| x t] eqn:E; [discriminate|].
  injection Hdef as Hrange. rewrite <- Hrange in Hk. cbn [snd] in Hk.
  set (M := fold_left Qmax t x) in *.
  assert (Hup : (Balance r <= M)%Q).
  { apply fold_Qmax_above. rewrite <- E. now apply in_map. }
  assert (Hdown : (M <= Balance r)%Q).
  { pose proof (fold_Qmax_attained t x) as HM. fold M in HM.
    rewrite <- E in HM. apply in_map_iff in HM.
    destruct HM as [r' [<- Hr']]. now apply Hmax. }
  assert (HMpos : (0 <= M)%Q) by (eapply Qle_trans; eassumption).
  assert (HMfrac : forall z, ~ (M == inject_Z z)%Q).
  { intros z Hz. apply (Hfrac z). rewrite <- Hz. now apply Qle_antisym. }
  pose proof (int_of_Q_short M HMpos HMfrac) as Hshort.
  apply (Qlt_irrefl M). eapply Qle_lt_trans; [|exact Hshort].
  eapply Qle_trans; eassumption.
Qed.

(** C2, on the table [sample_df]. The balance slider starts at the
    truncated extremes of the column, (0, 250898); the sixth customer,
    whose balance 250898.09 is the maximum, lies above the upper bound
    and is filtered out.  The untouched page shows five of the six rows,
    whether the inclusion boxes are all ticked or all cleared. *)
Theorem default_balance_bound_drops_top_row :
  default_balance_range sample_df = Some (0, 250898)
  /\ option_map (apply_filters sample_df) (default_criteria sample_df)
     = Some (firstn 5 sample_df)
  /\ option_map (apply_filters sample_df) (cleared_criteria sample_df)
     = Some (firstn 5 sample_df)
  /\ firstn 5 sample_df <> sample_df.
Proof.
  split; [reflexivity|]. split; [reflexivity|]. split; [reflexivity|].
  discriminate.
Qed.

(** ** Bins *)

Lemma Qle_bool_inject_Z (a b : Z) :
  Qle_bool (inject_Z a) (inject_Z b) = (a <=? b).
Proof.
  destruct (Z.leb_spec a b) as [H | H].
  - apply Qle_bool_iff. now rewrite <- Zle_Qle.
  - apply not_true_is_false. intros E. apply Qle_bool_iff in E.
    rewrite <- Zle_Qle in E. lia.
Qed.

(** The age group of a row, by cases on its age. *)
Lemma AgeGroup_cases (r : Row) :
  AgeGroup r =
    if Age r <=? 18 then None
    else if Age r <=? 25 then Some "18-25"
    else if Age r <=? 35 then Some "26-35"
    else if Age r <=? 45 then Some "36-45"
    else if Age r <=? 60 then Some "46-60"
    else Some "60+".
Proof.
  unfold AgeGroup, cut, age_bins, age_labels, cut_from, above, upto.
  rewrite !Qle_bool_inject_Z.
  repeat match goal with
         | |- context [?a <=? ?b] => destruct (Z.leb_spec a b); simpl; try lia
         end; reflexivity.
Qed.

(** The balance group of a row, by cases on its balance. *)
Lemma BalanceGroup_cases (r : Row) :
  BalanceGroup r =
    if Qle_bool (Balance r) 0 then None
    else if Qle_bool (Balance r) 50000 then Some "0-50K"
    else if Qle_bool (Balance r) 100000 then Some "50-100K"
    else if Qle_bool (Balance r) 150000 then Some "100-150K"
    else if Qle_bool (Balance r) 200000 then Some "150-200K"
    else Some "200K+".
Proof.
  unfold BalanceGroup, cut, balance_bins, balance_labels, cut_from, above, upto.
  change 0%Q with (inject_Z 0). change 50000%Q with (inject_Z 50000).
  change 100000%Q with (inject_Z 100000). change 150000%Q with (inject_Z 150000).
  change 200000%Q with (inject_Z 200000).
  destruct (Qle_bool (Balance r) (inject_Z 0)) eqn:E0.
  - assert (H : forall z, 0 <= z -> Qle_bool (Balance r) (inject_Z z) = true).
    { intros z Hz. apply Qle_bool_iff. apply Qle_bool_iff in E0.
      eapply Qle_trans; [exact E0|]. now rewrite <- Zle_Qle. }
    rewrite !H by lia. reflexivity.
  - repeat match goal with
           | |- context [Qle_bool ?a ?b] => destruct (Qle_bool a b)
           end; reflexivity.
Qed.

(** The boundary cases the charts rest on: 25 closes the first age bin, 26
    opens the second. *)
Lemma age_25_and_26 (r : Row) :
  (Age r = 25 -> AgeGroup r = Some "18-25")
  /\ (Age r = 26 -> AgeGroup r = Some "26-35").
Proof. rewrite AgeGroup_cases. split; intros ->; reflexivity. Qed.

(** C3, on the table [edge_df]. Its first customer, aged 18 with balance
    0, sits on the lowest edge of both bin lists; [cut] leaves that edge
    out of the first interval, so the customer has no age group and no
    balance group: the two charts and the two lists of counts know of one
    customer only, the second.  The same holds of any customer aged 18 or
    with balance 0. *)
Theorem lowest_edge_is_in_no_bin :
  (map AgeGroup edge_df = [None; Some "26-35"]
   /\ map BalanceGroup edge_df = [None; Some "50-100K"]
   /\ map fst (get_churn_by_age edge_df) = ["26-35"]
   /\ map fst (get_churn_by_balance edge_df) = ["50-100K"]
   /\ counts_age edge_df
      = [("18-25", 0); ("26-35", 1); ("36-45", 0); ("46-60", 0); ("60+", 0)]
   /\ counts_balance edge_df
      = [("0-50K", 0); ("50-100K", 1); ("100-150K", 0); ("150-200K", 0);
         ("200K+", 0)])
  /\ (forall r, Age r = 18 -> AgeGroup r = None)
  /\ (forall r, (Balance r == 0)%Q -> BalanceGroup r = None).
Proof.
  split; [repeat split; reflexivity|]. split.
  - intros r E. rewrite AgeGroup_cases, E. reflexivity.
  - intros r E. rewrite BalanceGroup_cases.
    replace (Qle_bool (Balance r) 0) with true; [reflexivity|].
    symmetry. apply Qle_bool_iff. rewrite E. apply Qle_refl.
Qed.

(** ** Group keys: ascending and without repetition *)

Section SortedKeys.
Variable K : Type.
Variable cmp : K -> K -> comparison.
Hypothesis cmp_eq : forall a b, cmp a b = Eq <-> a = b.
Hypothesis cmp_antisym : forall a b, cmp b a = CompOpp (cmp a b).
Hypothesis cmp_trans : forall a b c, cmp a b = Lt -> cmp b c = Lt -> cmp a c = Lt.

Lemma in_insert_key (x k : K) (ks : list K) :
  In x (insert_key cmp k ks) <-> x = k \/ In x ks.
Proof.
  induction ks as [| h t IH]; simpl.
  - intuition.
  - destruct (cmp k h) eqn:E; simpl.
    + apply cmp_eq in E. subst h. intuition.
    + intuition.
    + rewrite IH. intuition.
Qed.

Lemma in_sorted_keys (x : K) (col : list K) :
  In x (sorted_keys cmp col) <-> In x col.
Proof.
  induction col as [| k col IH]; simpl; [tauto|].
  rewrite in_insert_key, IH. intuition.
Qed.

Lemma insert_key_sorted (k : K) (ks : list K) :
  StronglySorted (fun a b => cmp a b = Lt) ks ->
  StronglySorted (fun a b => cmp a b = Lt) (insert_key cmp k ks).
Proof.
  induction ks as [| h t IH]; simpl; intros Hs.
  - constructor; constructor.
  - inversion Hs as [| ? ? Ht Hh]; subst.
    destruct (cmp k h) eqn:E.
    + exact Hs.
    + constructor; [exact Hs|]. constructor; [exact E|].
      rewrite Forall_forall in Hh |- *. intros y Hy.
      eapply cmp_trans; [exact E|]. now apply Hh.
    + constructor; [now apply IH|].
      rewrite Forall_forall in Hh |- *. intros y Hy.
      apply in_insert_key in Hy. destruct Hy as [-> | Hy]; [|now apply Hh].
      rewrite cmp_antisym, E. reflexivity.
Qed.

Lemma sorted_keys_sorted (col : list K) :
  StronglySorted (fun a b => cmp a b = Lt) (sorted_keys cmp col).
Proof.
  induction col as [| k col IH]; simpl; [constructor|].
  now apply insert_key_sorted.
Qed.

Lemma sorted_nodup (ks : list K) :
  StronglySorted (fun a b => cmp a b = Lt) ks -> NoDup ks.
Proof.
  induction 1 as [| k ks Hs IH Hk]; constructor; [|exact IH].
  intros Hin. rewrite Forall_forall in Hk. specialize (Hk k Hin).
  assert (E : cmp k k = Eq) by now apply cmp_eq. congruence.
Qed.

Lemma same_key_true (a b : K) : same_key cmp a b = true <-> a = b.
Proof.
  unfold same_key. rewrite <- cmp_eq. destruct (cmp a b); intuition congruence.
Qed.




Lemma groupby_keys (column : Row -> K) (df : DataFrame) :
  map fst (groupby cmp column df) = sorted_keys cmp (map column df).
Proof. unfold groupby. rewrite map_map. simpl. apply map_id. Qed.


End SortedKeys.

(** ** value_counts, reindex, fillna *)

Section ValueCounts.
Variable K : Type.
Variable eqb : K -> K -> bool.
Hypothesis eqb_eq : forall a b, eqb a b = true <-> a = b.

Lemma find_after_drop (k a : K) (s : Series K Z) :
  eqb a k = false ->
  find (fun kv => eqb (fst kv) k) (filter (fun kv => negb (eqb (fst kv) a)) s)
  = find (fun kv => eqb (fst kv) k) s.
Proof.
  intros E. induction s as [| kv s IH]; simpl; [reflexivity|].
  destruct (eqb (fst kv) a) eqn:Ea; simpl.
  - apply eqb_eq in Ea. rewrite Ea, E. exact IH.
  - destruct (eqb (fst kv) k); [reflexivity|exact IH].
Qed.

Lemma occurrences_absent (k : K) (col : list (option K)) :
  existsb (fun o => match o with Some k' => eqb k' k | None => false end) col = false ->
  occurrences eqb k col = 0.
Proof.
  unfold occurrences. induction col as [| o col IH]; simpl; [reflexivity|].
  intros H. apply orb_false_iff in H. destruct H as [H1 H2].
  rewrite H1. now apply IH.
Qed.

Lemma find_value_counts (k : K) (col : list (option K)) :
  find (fun kv => eqb (fst kv) k) (value_counts eqb col)
  = if existsb (fun o => match o with Some k' => eqb k' k | None => false end) col
    then Some (k, Some (occurrences eqb k col))
    else None.
Proof.
  induction col as [| [a|] col IH]; cbn [value_counts find existsb fst];
    [reflexivity| |exact IH].
  destruct (eqb a k) eqn:E; cbn [orb].
  - apply eqb_eq in E. subst a. do 3 f_equal. unfold occurrences. cbn [filter].
    replace (eqb k k) with true by (symmetry; now apply eqb_eq).
    cbn [List.length]. lia.
  - rewrite find_after_drop by exact E. rewrite IH.
    unfold occurrences. cbn [filter]. rewrite E. reflexivity.
Qed.

Lemma astype_int_defined (f : K -> Z) (idx : list K) :
  astype_int (map (fun k => (k, Some (f k))) idx) = Some (map (fun k => (k, f k)) idx).
Proof.
  induction idx as [| k idx IH]; cbn [map astype_int]; [reflexivity|].
  rewrite IH. reflexivity.
Qed.

(** The counts drawn with a chart: for each label of the index, the
    number of rows that carry it. *)
Lemma counts_formula (index : list K) (col : list (option K)) :
  counts_or_zeros index (fillna 0 (reindex eqb index (value_counts eqb col)))
  = map (fun k => (k, occurrences eqb k col)) index.
Proof.
  unfold counts_or_zeros, fillna, reindex. rewrite map_map. cbn [fst snd].
  rewrite (map_ext _ (fun k => (k, Some (occurrences eqb k col)))).
  - now rewrite astype_int_defined.
  - intros k. rewrite find_value_counts.
    destruct (existsb _ col) eqn:E; cbn [snd]; [reflexivity|].
    now rewrite occurrences_absent.
Qed.

Lemma occurrences_of_column (cmp : K -> K -> comparison) (column : Row -> K)
    (k : K) (df : DataFrame) :
  (forall a b, same_key cmp a b = eqb a b) ->
  occurrences eqb k (map (fun r => Some (column r)) df)
  = Z.of_nat (List.length (filter (fun r => same_key cmp (column r) k) df)).
Proof.
  intros Hs. unfold occurrences. f_equal.
  induction df as [| r df IH]; simpl; [reflexivity|].
  rewrite Hs. destruct (eqb (column r) k); simpl; now rewrite IH.
Qed.
End ValueCounts.

(** ** The orders on labels and on product counts *)

Lemma string_cmp_trans (a b c : string) :
  String.compare a b = Lt -> String.compare b c = Lt -> String.compare a c = Lt.
Proof.
  intros H1 H2. apply String_as_OT.cmp_lt.
  apply String_as_OT.lt_trans with b; now apply String_as_OT.cmp_lt.
Qed.

Lemma string_cmp_antisym (a b : string) :
  String.compare b a = CompOpp (String.compare a b).
Proof. apply String_as_OT.cmp_antisym. Qed.

Lemma Z_cmp_trans (a b c : Z) : (a ?= b) = Lt -> (b ?= c) = Lt -> (a ?= c) = Lt.
Proof. rewrite !Z.compare_lt_iff. lia. Qed.

Lemma same_key_string (a b : string) :
  same_key String.compare a b = String.eqb a b.
Proof.
  destruct (String.eqb_spec a b) as [-> | Hne].
  - apply (same_key_true _ _ String_as_OT.cmp_eq). reflexivity.
  - apply not_true_is_false. intros H.
    apply (same_key_true _ _ String_as_OT.cmp_eq) in H. contradiction.
Qed.

Lemma times100_keys {K : Type} (s : Series K Q) : map fst (times100 s) = map fst s.
Proof. unfold times100. rewrite map_map. reflexivity. Qed.

Lemma groupby_mean_keys {K : Type} (cmp : K -> K -> comparison)
    (column : Row -> K) (df : DataFrame) :
  map fst (groupby_mean_exited cmp column df) = sorted_keys cmp (map column df).
Proof.
  unfold groupby_mean_exited. rewrite map_map. simpl.
  change (map (fun x => fst x) (groupby cmp column df))
    with (map fst (groupby cmp column df)).
  apply groupby_keys.
Qed.

Lemma in_column {K : Type} (column : Row -> K) (df : DataFrame) (k : K) :
  In k (map column df) <-> exists r, In r df /\ column r = k.
Proof.
  rewrite in_map_iff. split; intros [r [H1 H2]]; exists r; tauto.
Qed.

(** C10. The geography, gender and product charts list exactly the labels
    that occur in the table, in ascending order (so a label no row carries
    is left out), while the activity chart always lists 0 and 1. *)
Theorem plain_groupings_list_observed_labels (df : DataFrame) :
  ((forall l, In l (map fst (get_geo_churn df))
              <-> exists r, In r df /\ Geography r = l)
   /\ StronglySorted label_before (map fst (get_geo_churn df)))
  /\ ((forall l, In l (map fst (get_gender_churn df))
                 <-> exists r, In r df /\ Gender r = l)
      /\ StronglySorted label_before (map fst (get_gender_churn df)))
  /\ ((forall n, In n (map fst (get_product_churn df))
                 <-> exists r, In r df /\ NumOfProducts r = n)
      /\ StronglySorted Z.lt (map fst (get_product_churn df)))
  /\ map fst (get_active_churn df) = [0; 1].
Proof.
  unfold get_geo_churn, get_gender_churn, get_product_churn.
  rewrite !times100_keys, !groupby_mean_keys.
  repeat split.
  - intros H. apply in_column. revert H.
    apply (in_sorted_keys _ _ String_as_OT.cmp_eq).
  - intros H. apply (in_sorted_keys _ _ String_as_OT.cmp_eq), in_column, H.
  - apply (sorted_keys_sorted _ _ String_as_OT.cmp_eq string_cmp_antisym
             string_cmp_trans).
  - intros H. apply in_column. revert H.
    apply (in_sorted_keys _ _ String_as_OT.cmp_eq).
  - intros H. apply (in_sorted_keys _ _ String_as_OT.cmp_eq), in_column, H.
  - apply (sorted_keys_sorted _ _ String_as_OT.cmp_eq string_cmp_antisym
             string_cmp_trans).
  - intros H. apply in_column. revert H.
    apply (in_sorted_keys _ _ Z.compare_eq_iff).
  - intros H. apply (in_sorted_keys _ _ Z.compare_eq_iff), in_column, H.
  - apply (sorted_keys_sorted _ _ Z.compare_eq_iff Z.compare_antisym Z_cmp_trans).
Qed.

(** ** Sample counts *)

Lemma groupby_partitions {K : Type} (cmp : K -> K -> comparison)
    (column : Row -> K) (df : DataFrame) :
  (forall a b, cmp a b = Eq <-> a = b) ->
  partitions (groupby cmp column df) df.
Proof.
  intros cmp_eq r Hr.
  exists (column r), (filter (fun r' => same_key cmp (column r') (column r)) df).
  split; [|split].
  - unfold groupby.
    apply (in_map (fun k => (k, filter (fun r' => same_key cmp (column r') k) df))).
    apply (in_sorted_keys _ _ cmp_eq). now apply in_map.
  - apply filter_In. split; [exact Hr|]. now apply (same_key_true _ _ cmp_eq).
  - intros k' g' Hg Hin. unfold groupby in Hg. apply in_map_iff in Hg.
    destruct Hg as [k [E _]]. inversion E; subst. apply filter_In in Hin.
    destruct Hin as [_ Hk]. apply (same_key_true _ _ cmp_eq) in Hk. now symmetry.
Qed.

Lemma counts_are_group_sizes (column : Row -> string) (df : DataFrame) :
  map (fun k => (k, occurrences String.eqb k (map (fun r => Some (column r)) df)))
    (sorted_keys String.compare (map column df))
  = group_sizes (groupby String.compare column df).
Proof.
  unfold group_sizes, groupby. rewrite map_map. cbn [fst snd].
  apply map_ext. intros k. f_equal.
  apply (occurrences_of_column _ String.eqb String.compare). apply same_key_string.
Qed.

Lemma counts_geo_group_sizes (df : DataFrame) :
  counts_geo df = group_sizes (groupby String.compare Geography df).
Proof.
  unfold counts_geo, get_geo_churn. cbv zeta.
  rewrite times100_keys, groupby_mean_keys.
  rewrite (counts_formula _ _ String.eqb_eq). apply counts_are_group_sizes.
Qed.

Lemma counts_gender_group_sizes (df : DataFrame) :
  counts_gender df = group_sizes (groupby String.compare Gender df).
Proof.
  unfold counts_gender, get_gender_churn. cbv zeta.
  rewrite times100_keys, groupby_mean_keys.
  rewrite (counts_formula _ _ String.eqb_eq). apply counts_are_group_sizes.
Qed.

Lemma counts_active_formula (df : DataFrame) :
  counts_active df
  = [("Inactive", Z.of_nat (List.length (filter (fun r => IsActiveMember r =? 0) df)));
     ("Active", Z.of_nat (List.length (filter (fun r => IsActiveMember r =? 1) df)))].
Proof.
  unfold counts_active. rewrite (counts_formula _ _ String.eqb_eq).
  unfold active_labels, occurrences. cbn [map]. repeat f_equal.
  - induction df as [| r df IH]; cbn [map filter]; [reflexivity|].
    unfold active_label at 1.
    destruct (IsActiveMember r =? 1) eqn:E1.
    + apply Z.eqb_eq in E1. rewrite E1. cbn. exact IH.
    + destruct (IsActiveMember r =? 0); cbn; now rewrite IH.
  - induction df as [| r df IH]; cbn [map filter]; [reflexivity|].
    unfold active_label at 1.
    destruct (IsActiveMember r =? 1) eqn:E1.
    + cbn. now rewrite IH.
    + destruct (IsActiveMember r =? 0); cbn; exact IH.
Qed.


(** ** Churn rates *)

Lemma total_of_flags (col : list Z) :
  (forall x, In x col -> x = 0 \/ x = 1) ->
  0 <= total col <= Z.of_nat (List.length col).
Proof.
  induction col as [| x col IH]; intros H; cbn [total fold_right List.length].
  - lia.
  - assert (IH' := IH (fun y Hy => H y (or_intror Hy))). unfold total in IH'.
    destruct (H x (or_introl eq_refl)); lia.
Qed.

(** The mean of a non-empty column of flags is a number between 0 and 1. *)
Lemma mean_of_flags (col : list Z) :
  col <> [] -> (forall x, In x col -> x = 0 \/ x = 1) -> fraction (mean col).
Proof.
  intros Hne H. pose proof (total_of_flags col H) as Ht.
  destruct col as [| x col]; [now elim Hne|].
  unfold mean, fraction. set (s := total (x :: col)) in *.
  cbn [List.length] in *. rewrite Nat2Z.inj_succ in *.
  set (n := Z.of_nat (List.length col)) in *.
  assert (Hn : 0 <= n) by (subst n; lia).
  assert (Hpos : (0 < inject_Z (Z.succ n))%Q) by (rewrite <- (Zlt_Qlt 0); lia).
  split.
  - apply Qle_shift_div_l; [exact Hpos|]. rewrite Qmult_0_l.
    rewrite <- (Zle_Qle 0). lia.
  - apply Qle_shift_div_r; [exact Hpos|]. rewrite Qmult_1_l.
    rewrite <- Zle_Qle. lia.
Qed.

Lemma fraction_times100 (v : option Q) :
  fraction v -> percentage (option_map (fun q => q * 100)%Q v).
Proof.
  destruct v as [q|]; cbn [fraction percentage option_map]; [|tauto].
  intros [H0 H1]. split.
  - apply Qmult_le_0_compat; [exact H0|discriminate].
  - setoid_replace 100%Q with (1 * 100)%Q at 2 by reflexivity.
    apply Qmult_le_compat_r; [exact H1|discriminate].
Qed.

Lemma times100_percentages {K : Type} (s : Series K Q) :
  Forall fraction (map snd s) -> Forall percentage (map snd (times100 s)).
Proof.
  unfold times100. rewrite map_map. cbn [snd]. rewrite !Forall_map.
  apply Forall_impl. intros kv. apply fraction_times100.
Qed.

Lemma group_means_are_fractions {K : Type} (groups : list (K * DataFrame)) :
  (forall g, In g groups ->
     snd g <> [] /\ forall r, In r (snd g) -> Exited r = 0 \/ Exited r = 1) ->
  Forall fraction (map snd (map (fun g => (fst g, mean (map Exited (snd g)))) groups)).
Proof.
  intros H. rewrite map_map. cbn [snd]. rewrite Forall_map, Forall_forall.
  intros g Hg. destruct (H g Hg) as [Hne Hflags]. apply mean_of_flags.
  - destruct (snd g) eqn:E; [contradiction|discriminate].
  - intros x Hx. apply in_map_iff in Hx. destruct Hx as [r [<- Hr]]. now apply Hflags.
Qed.

Lemma groupby_groups {K : Type} (cmp : K -> K -> comparison) (column : Row -> K)
    (df : DataFrame) (g : K * DataFrame) :
  (forall a b, cmp a b = Eq <-> a = b) ->
  In g (groupby cmp column df) ->
  snd g <> [] /\ forall r, In r (snd g) -> In r df.
Proof.
  intros cmp_eq Hg. unfold groupby in Hg. apply in_map_iff in Hg.
  destruct Hg as [k [<- Hk]]. cbn [snd].
  apply -> (in_sorted_keys _ _ cmp_eq) in Hk. apply in_map_iff in Hk.
  destruct Hk as [r [<- Hr]]. split.
  - intros E.
    assert (Hin : In r (filter (fun r' => same_key cmp (column r') (column r)) df)).
    { apply filter_In. split; [exact Hr|]. now apply (same_key_true _ _ cmp_eq). }
    rewrite E in Hin. contradiction.
  - intros r' Hr'. now apply filter_In in Hr'.
Qed.

Lemma groupby_observed_groups (labels : list string) (column : Row -> option string)
    (df : DataFrame) (g : string * DataFrame) :
  In g (groupby_observed labels column df) ->
  snd g <> [] /\ forall r, In r (snd g) -> In r df.
Proof.
  unfold groupby_observed. intros Hg. apply filter_In in Hg.
  destruct Hg as [Hg Hne]. apply in_map_iff in Hg. destruct Hg as [l [<- _]].
  cbn [snd] in *. split.
  - intros E. rewrite E in Hne. discriminate.
  - intros r Hr. now apply filter_In in Hr.
Qed.

Lemma groupby_rates {K : Type} (cmp : K -> K -> comparison) (column : Row -> K)
    (df : DataFrame) :
  (forall a b, cmp a b = Eq <-> a = b) ->
  (forall r, In r df -> Exited r = 0 \/ Exited r = 1) ->
  Forall fraction (map snd (groupby_mean_exited cmp column df)).
Proof.
  intros cmp_eq H. unfold groupby_mean_exited. apply group_means_are_fractions.
  intros g Hg. destruct (groupby_groups cmp column df g cmp_eq Hg) as [Hne Hsub].
  split; [exact Hne|]. intros r Hr. apply H, Hsub, Hr.
Qed.

Lemma observed_rates (labels : list string) (column : Row -> option string)
    (df : DataFrame) :
  (forall r, In r df -> Exited r = 0 \/ Exited r = 1) ->
  Forall fraction
    (map snd (map (fun g => (fst g, mean (map Exited (snd g))))
                (groupby_observed labels column df))).
Proof.
  intros H. apply group_means_are_fractions.
  intros g Hg. destruct (groupby_observed_groups labels column df g Hg) as [Hne Hsub].
  split; [exact Hne|]. intros r Hr. apply H, Hsub, Hr.
Qed.

Lemma filled_rates {K : Type} (eqb : K -> K -> bool) (index : list K)
    (s : Series K Q) :
  Forall fraction (map snd s) ->
  Forall fraction (map snd (fillna 0%Q (reindex eqb index s))).
Proof.
  intros H. unfold fillna, reindex. rewrite !map_map. cbn [fst snd].
  rewrite Forall_map, Forall_forall. intros k _.
  destruct (find (fun kv => eqb (fst kv) k) s) as [kv|] eqn:E.
  - apply find_some in E. destruct E as [Hin _].
    rewrite Forall_map, Forall_forall in H. specialize (H kv Hin).
    destruct (snd kv); [exact H|contradiction].
  - cbn. split; discriminate.
Qed.

Lemma find_absent {K V : Type} (eqb : K -> K -> bool) (k : K) (s : Series K V) :
  (forall kv, In kv s -> eqb (fst kv) k = false) ->
  find (fun kv => eqb (fst kv) k) s = None.
Proof.
  induction s as [| kv s IH]; intros H; cbn [find]; [reflexivity|].
  rewrite (H kv (or_introl eq_refl)). apply IH. intros kv' Hkv'. apply H. now right.
Qed.

(** A status no row has is charted at rate 0. *)
Lemma active_rate_of_absent_status (df : DataFrame) (k : Z) :
  In k [0; 1] -> (forall r, In r df -> IsActiveMember r <> k) ->
  In (k, Some 0%Q) (get_active_churn df).
Proof.
  intros Hk Habs.
  assert (E : find (fun kv => Z.eqb (fst kv) k)
                (groupby_mean_exited Z.compare IsActiveMember df) = None).
  { apply find_absent. intros kv Hkv. apply Z.eqb_neq. intros Heq.
    assert (Hin : In k (map fst (groupby_mean_exited Z.compare IsActiveMember df))).
    { rewrite <- Heq. now apply in_map. }
    rewrite groupby_mean_keys in Hin.
    apply -> (in_sorted_keys _ _ Z.compare_eq_iff) in Hin.
    apply in_map_iff in Hin. destruct Hin as [r [Hr1 Hr2]]. now apply (Habs r). }
  unfold get_active_churn, times100, fillna, reindex. rewrite !map_map.
  cbn [fst snd map].
  destruct Hk as [<- | [<- | []]]; rewrite E; cbn; auto.
Qed.

(** The headline rate of a table with rows is the mean of the churn flag
    times 100. *)
Lemma headline_rate_as_mean (df : DataFrame) :
  df <> [] ->
  Some (churn_rate df) = option_map (fun q => q * 100)%Q (mean (map Exited df)).
Proof.
  intros Hne. destruct df as [| r df]; [now elim Hne|].
  unfold churn_rate, total_customers, churned_customers, mean.
  replace (0 <? Z.of_nat (List.length (r :: df))) with true
    by (symmetry; apply Z.ltb_lt; cbn [List.length]; lia).
  cbn [map option_map]. cbn [List.length]. rewrite length_map. reflexivity.
Qed.

Lemma headline_rate_percentage (df : DataFrame) :
  df <> [] -> (forall r, In r df -> Exited r = 0 \/ Exited r = 1) ->
  percentage (option_map (fun q => q * 100)%Q (mean (map Exited df))).
Proof.
  intros Hne H. apply fraction_times100, mean_of_flags.
  - destruct df; [now elim Hne|discriminate].
  - intros x Hx. apply in_map_iff in Hx. destruct Hx as [r [<- Hr]]. now apply H.
Qed.

(** On [young_df], one of the two customers of the bin "26-35" has left:
    the rate is 50 and the count 2. *)
Example young_df_age_chart :
  exists q, get_churn_by_age young_df = [("26-35", Some q)]
            /\ (q == 50)%Q
            /\ In ("26-35", 2) (counts_age young_df).
Proof.
  exists (100 # 2)%Q. split; [reflexivity|]. split; [reflexivity|].
  vm_compute. tauto.
Qed.

(** On a table whose churn flag is 0 or 1, every rate of the six
    aggregations is a number between 0 and 100, and so is the headline
    rate; the headline rate of an empty table, both statuses of the
    activity chart on an empty table, and any status no row has are at
    rate 0. *)
Lemma rates_are_percentages (df : DataFrame) :
  (forall r, In r df -> Exited r = 0 \/ Exited r = 1) ->
  (Forall percentage (map snd (get_churn_by_age df))
   /\ Forall percentage (map snd (get_churn_by_balance df))
   /\ Forall percentage (map snd (get_geo_churn df))
   /\ Forall percentage (map snd (get_product_churn df))
   /\ Forall percentage (map snd (get_gender_churn df))
   /\ Forall percentage (map snd (get_active_churn df))
   /\ (0 <= churn_rate df /\ churn_rate df <= 100)%Q)
  /\ (churn_rate [] = 0%Q
      /\ get_active_churn [] = [(0, Some 0%Q); (1, Some 0%Q)]
      /\ forall k, In k [0; 1] -> (forall r, In r df -> IsActiveMember r <> k) ->
                   In (k, Some 0%Q) (get_active_churn df)).
Proof.
  intros H. split; [|split; [reflexivity|split; [reflexivity|]]].
  - repeat split.
    + apply times100_percentages, observed_rates, H.
    + apply times100_percentages, observed_rates, H.
    + apply times100_percentages, groupby_rates; [apply String_as_OT.cmp_eq|exact H].
    + apply times100_percentages, groupby_rates; [apply Z.compare_eq_iff|exact H].
    + apply times100_percentages, groupby_rates; [apply String_as_OT.cmp_eq|exact H].
    + apply times100_percentages, filled_rates, groupby_rates;
        [apply Z.compare_eq_iff|exact H].
    + destruct df as [| r df]; [cbn; discriminate|].
      pose proof (headline_rate_percentage (r :: df)) as Hp.
      rewrite <- headline_rate_as_mean in Hp by discriminate. now apply Hp.
    + destruct df as [| r df]; [cbn; discriminate|].
      pose proof (headline_rate_percentage (r :: df)) as Hp.
      rewrite <- headline_rate_as_mean in Hp by discriminate. now apply Hp.
  - intros k. apply active_rate_of_absent_status.
Qed.

(** ** Labels of the binned charts *)

Lemma truthy_filter {A : Type} (p : A -> bool) (l : list A) :
  truthy (filter p l) = existsb p l.
Proof.
  induction l as [| x l IH]; cbn [filter existsb]; [reflexivity|].
  destruct (p x); [reflexivity|exact IH].
Qed.

Lemma groupby_observed_keys (labels : list string) (column : Row -> option string)
    (df : DataFrame) :
  map fst (groupby_observed labels column df)
  = filter (fun l => existsb (fun r => has_label l (column r)) df) labels.
Proof.
  unfold groupby_observed.
  induction labels as [| l labels IH]; cbn [map filter snd]; [reflexivity|].
  rewrite truthy_filter.
  destruct (existsb (fun r => has_label l (column r)) df); cbn [map fst];
    now rewrite IH.
Qed.

Lemma binned_chart_keys (labels : list string) (column : Row -> option string)
    (df : DataFrame) :
  map fst (times100 (map (fun g => (fst g, mean (map Exited (snd g))))
                       (groupby_observed labels column df)))
  = filter (fun l => existsb (fun r => has_label l (column r)) df) labels.
Proof.
  rewrite times100_keys, map_map. cbn [fst].
  change (map (fun x => fst x) (groupby_observed labels column df))
    with (map fst (groupby_observed labels column df)).
  apply groupby_observed_keys.
Qed.

Lemma occurrences_of_absent_label (l : string) (col : list (option string)) :
  (forall o, In o col -> o <> Some l) -> occurrences String.eqb l col = 0.
Proof.
  intros H. apply (occurrences_absent _ String.eqb).
  apply not_true_is_false. intros E. apply existsb_exists in E.
  destruct E as [[l'|] [Hin He]]; [|discriminate].
  apply String.eqb_eq in He. subst l'. now apply (H (Some l)).
Qed.

Lemma plain_counts (labels : list string) (column : Row -> option string)
    (df : DataFrame) :
  let counts :=
    counts_or_zeros labels
      (fillna 0 (reindex String.eqb labels
                   (value_counts String.eqb (map column df)))) in
  map fst counts = labels
  /\ forall l, In l labels -> (forall r, In r df -> column r <> Some l) ->
               In (l, 0) counts.
Proof.
  cbv zeta. rewrite (counts_formula _ _ String.eqb_eq). split.
  - rewrite map_map. cbn [fst]. apply map_id.
  - intros l Hl Habs. apply in_map_iff. exists l. split; [|exact Hl].
    f_equal. apply occurrences_of_absent_label. intros o Ho.
    apply in_map_iff in Ho. destruct Ho as [r [<- Hr]]. now apply Habs.
Qed.

Lemma find_category (l : string) (f : string -> Z) (categories : list string) :
  In l categories ->
  find (fun kv : string * option Z => String.eqb (fst kv) l)
    (map (fun l' => (l', Some (f l'))) categories)
  = Some (l, Some (f l)).
Proof.
  induction categories as [| c categories IH]; cbn [In map find fst]; [tauto|].
  destruct (String.eqb_spec c l) as [-> | Hne]; [reflexivity|].
  intros [H | H]; [contradiction|now apply IH].
Qed.

(** The counts of a binned chart: for each bin, the number of rows in it. *)
Lemma categorical_counts_formula (labels : list string) (col : list (option string)) :
  counts_or_zeros labels
    (fillna 0 (reindex String.eqb labels (value_counts_categorical labels col)))
  = map (fun l => (l, occurrences String.eqb l col)) labels.
Proof.
  unfold counts_or_zeros, fillna, reindex, value_counts_categorical.
  rewrite map_map. cbn [fst snd].
  rewrite (map_ext_in _ (fun l => (l, Some (occurrences String.eqb l col)))).
  - now rewrite astype_int_defined.
  - intros l Hl. now rewrite find_category.
Qed.

Lemma binned_counts (labels : list string) (column : Row -> option string)
    (df : DataFrame) :
  let counts :=
    counts_or_zeros labels
      (fillna 0 (reindex String.eqb labels
                   (value_counts_categorical labels (map column df)))) in
  map fst counts = labels
  /\ forall l, In l labels -> (forall r, In r df -> column r <> Some l) ->
               In (l, 0) counts.
Proof.
  cbv zeta. rewrite categorical_counts_formula. split.
  - rewrite map_map. cbn [fst]. apply map_id.
  - intros l Hl Habs. apply in_map_iff. exists l. split; [|exact Hl].
    f_equal. apply occurrences_of_absent_label. intros o Ho.
    apply in_map_iff in Ho. destruct Ho as [r [<- Hr]]. now apply Habs.
Qed.

(** C4, refuted on the table [young_df]: its customers are aged 30 and
    31, with balances 60000 and 40000, and the age chart has the single label
    "26-35", the balance chart the two labels "0-50K" and "50-100K"; the
    other bins are not reported at rate 0, they are left out. *)
Lemma binned_charts_omit_empty_bins :
  map fst (get_churn_by_age young_df) = ["26-35"]
  /\ map fst (get_churn_by_balance young_df) = ["0-50K"; "50-100K"]
  /\ ~ In "18-25" (map fst (get_churn_by_age young_df))
  /\ ~ In "200K+" (map fst (get_churn_by_balance young_df)).
Proof.
  repeat split; try reflexivity.
  - vm_compute. intros [H | []]. discriminate.
  - vm_compute. intros [H | [H | []]]; discriminate.
Qed.

(** C4, amended. The activity chart always lists the statuses 0 and 1, in
    that order, a status without rows at rate 0 and count 0.  The age and
    balance charts list the bins that hold at least one row, in the order
    of the bin list, and nothing else; the counts computed beside them
    list all five bins, an empty bin at count 0. *)
Theorem canonical_labels_of_charts (df : DataFrame) :
  (map fst (get_active_churn df) = [0; 1]
   /\ (forall k, In k [0; 1] -> (forall r, In r df -> IsActiveMember r <> k) ->
                 In (k, Some 0%Q) (get_active_churn df))
   /\ map fst (counts_active df) = active_labels
   /\ (forall l, In l active_labels ->
                 (forall r, In r df -> active_label r <> Some l) ->
                 In (l, 0) (counts_active df)))
  /\ (map fst (get_churn_by_age df)
      = filter (fun l => existsb (fun r => has_label l (AgeGroup r)) df) age_labels
      /\ map fst (counts_age df) = age_labels
      /\ (forall l, In l age_labels -> (forall r, In r df -> AgeGroup r <> Some l) ->
                    In (l, 0) (counts_age df)))
  /\ (map fst (get_churn_by_balance df)
      = filter (fun l => existsb (fun r => has_label l (BalanceGroup r)) df)
          balance_labels
      /\ map fst (counts_balance df) = balance_labels
      /\ (forall l, In l balance_labels ->
                    (forall r, In r df -> BalanceGroup r <> Some l) ->
                    In (l, 0) (counts_balance df))).
Proof.
  split; [|split].
  - split; [reflexivity|]. split; [intros k; apply active_rate_of_absent_status|].
    apply (plain_counts active_labels active_label df).
  - split; [apply binned_chart_keys|].
    apply (binned_counts age_labels AgeGroup df).
  - split; [apply binned_chart_keys|].
    apply (binned_counts balance_labels BalanceGroup df).
Qed.

(** On [young_df]: no inactive customer, nobody over 60, no balance over
    200000. *)
Lemma canonical_labels_of_charts_witness :
  In (0, Some 0%Q) (get_active_churn young_df)
  /\ In ("Inactive", 0) (counts_active young_df)
  /\ In ("60+", 0) (counts_age young_df)
  /\ In ("200K+", 0) (counts_balance young_df).
Proof.
  pose proof (canonical_labels_of_charts young_df) as [[_ [Ha [_ Hc]]] [[_ [_ Hg]] [_ [_ Hb]]]].
  assert (Hrows : forall (P : Row -> Prop),
             P (row 1 "France" "Female" 30 60000 1 1 1) ->
             P (row 2 "Germany" "Male" 31 40000 2 1 0) ->
             forall r, In r young_df -> P r).
  { intros P H1 H2 r [<- | [<- | []]]; assumption. }
  repeat split.
  - apply Ha; [simpl; tauto|]. apply Hrows; simpl; lia.
  - apply Hc; [simpl; tauto|]. apply Hrows; vm_compute; discriminate.
  - apply Hg; [simpl; tauto|]. apply Hrows; vm_compute; discriminate.
  - apply Hb; [simpl; tauto|]. apply Hrows; vm_compute; discriminate.
Defined.

(** ** The fallback estimate *)

Lemma logistic_bounds (x : R) : (0 < logistic x < 1)%R.
Proof.
  unfold logistic. pose proof (exp_pos (- x)) as He.
  set (e := exp (- x)) in *. split.
  - apply Rdiv_lt_0_compat; lra.
  - apply (Rmult_lt_reg_r (1 + e)); [lra|]. field_simplify; lra.
Qed.

Lemma clamp01_as_max_min (x : R) : clamp01 x = Rmax 0.0 (Rmin 1.0 x).
Proof.
  unfold clamp01, Rmax, Rmin.
  destruct (Rlt_dec x 0), (Rlt_dec 1 x), (Rle_dec 1.0 x);
    try lra; destruct (Rle_dec 0.0 _); lra.
Qed.

Lemma clamp01_inside (x : R) : (0 <= x <= 1)%R -> clamp01 x = x.
Proof.
  intros H. unfold clamp01. destruct (Rlt_dec x 0), (Rlt_dec 1 x); lra.
Qed.

Lemma predict_heuristic (f : Features) :
  predict None f = logistic (heuristic_score f).
Proof.
  unfold predict. rewrite <- clamp01_as_max_min.
  apply clamp01_inside. pose proof (logistic_bounds (heuristic_score f)).
  unfold logistic in *. unfold heuristic_prob. lra.
Qed.

Lemma logistic_increasing (x y : R) : (x < y)%R -> (logistic x < logistic y)%R.
Proof.
  intros H. unfold logistic.
  assert (He : (exp (- y) < exp (- x))%R) by (apply exp_increasing; lra).
  pose proof (exp_pos (- y)). pose proof (exp_pos (- x)).
  apply (Rmult_lt_reg_r ((1 + exp (- x)) * (1 + exp (- y)))).
  - apply Rmult_lt_0_compat; lra.
  - field_simplify; lra.
Qed.

Lemma logistic_0 : logistic 0 = (1 / 2)%R.
Proof. unfold logistic. rewrite Ropp_0, exp_0. lra. Qed.

Lemma reference_score : heuristic_score reference_customer = (- 0.1)%R.
Proof.
  unfold heuristic_score, reference_customer. cbn [pred_age pred_balance
    pred_products pred_active pred_gender pred_geo negb].
  change (String.eqb (lower "France") "germany") with false.
  change (String.eqb (lower "Female") "male") with false.
  change (40 - 40)%Z with 0%Z. change (50000 - 50000)%Z with 0%Z.
  change (1 - 1)%Z with 0%Z. cbv zeta. lra.
Qed.

(** C5, refuted. For the customer aged 40 with balance 50000, one product,
    active, female, in France, the score is not 0 and the estimate is not
    0.5: the term for an active member takes 0.1 off. *)
Lemma reference_customer_is_not_even_odds :
  heuristic_score reference_customer <> 0%R
  /\ predict None reference_customer <> 0.5%R.
Proof.
  split.
  - rewrite reference_score. lra.
  - rewrite predict_heuristic, reference_score.
    pose proof (logistic_increasing (- 0.1) 0 ltac:(lra)) as H.
    rewrite logistic_0 in H. lra.
Qed.

Lemma exp_tenth_bounds : (1.1 < exp 0.1 < 1.12)%R.
Proof.
  split.
  - pose proof (exp_ineq1 0.1 ltac:(lra)). lra.
  - pose proof (exp_ineq1 (Ropp 0.1) ltac:(lra)) as H.
    rewrite exp_Ropp in H. pose proof (exp_pos 0.1) as Hp.
    apply (Rmult_lt_compat_r (exp 0.1)) in H; [|exact Hp].
    rewrite Rinv_l in H by lra. lra.
Qed.

(** C5, amended. That customer has score -0.1, hence the estimate
    1/(1+e^0.1), which lies between 0.47 and 0.48, below 0.5. *)
Theorem reference_customer_estimate :
  heuristic_score reference_customer = (- 0.1)%R
  /\ predict None reference_customer = (1 / (1 + exp 0.1))%R
  /\ (0.47 < predict None reference_customer < 0.48)%R.
Proof.
  assert (E : predict None reference_customer = (1 / (1 + exp 0.1))%R).
  { rewrite predict_heuristic, reference_score. unfold logistic.
    match goal with
    | |- context [exp ?a] => replace a with 0.1%R by lra
    end.
    reflexivity. }
  split; [apply reference_score|]. split; [exact E|].
  rewrite E. pose proof exp_tenth_bounds as [Hlo Hhi].
  split.
  - apply (Rmult_lt_reg_r (1 + exp 0.1)); [lra|].
    unfold Rdiv. rewrite Rmult_assoc, Rinv_l by lra. lra.
  - apply (Rmult_lt_reg_r (1 + exp 0.1)); [lra|].
    unfold Rdiv. rewrite Rmult_assoc, Rinv_l by lra. lra.
Qed.

Lemma heuristic_score_closed_form (f : Features) :
  heuristic_score f = caseless_score f.
Proof.
  unfold heuristic_score, caseless_score. cbv zeta.
  change (lower "Germany") with "germany". change (lower "Male") with "male".
  destruct (pred_active f), (String.eqb (lower (pred_geo f)) "germany"),
    (String.eqb (lower (pred_gender f)) "male"); cbn [negb]; lra.
Qed.

(** Outside the labels of the table: a geography spelled "GERMANY" still
    gets the 0.1 of the German market, the test being made on the
    lower-cased label. *)
Lemma uppercase_geography_scores_as_germany :
  predict None (mkFeatures 40 50000 1 true "Female" "GERMANY")
  <> spec_prob (mkFeatures 40 50000 1 true "Female" "GERMANY").
Proof.
  rewrite predict_heuristic, heuristic_score_closed_form. unfold spec_prob.
  rewrite clamp01_inside by (pose proof (logistic_bounds
    (spec_score (mkFeatures 40 50000 1 true "Female" "GERMANY"))); lra).
  assert (E1 : caseless_score (mkFeatures 40 50000 1 true "Female" "GERMANY") = 0%R).
  { unfold caseless_score. cbn [pred_age pred_balance pred_products pred_active
      pred_gender pred_geo].
    change (String.eqb (lower "GERMANY") (lower "Germany")) with true.
    change (String.eqb (lower "Female") (lower "Male")) with false.
    change (40 - 40)%Z with 0%Z. change (50000 - 50000)%Z with 0%Z.
    change (1 - 1)%Z with 0%Z. lra. }
  assert (E2 : spec_score (mkFeatures 40 50000 1 true "Female" "GERMANY") = (- 0.1)%R).
  { unfold spec_score. cbn [pred_age pred_balance pred_products pred_active
      pred_gender pred_geo].
    change (String.eqb "GERMANY" "Germany") with false.
    change (String.eqb "Female" "Male") with false.
    change (40 - 40)%Z with 0%Z. change (50000 - 50000)%Z with 0%Z.
    change (1 - 1)%Z with 0%Z. lra. }
  rewrite E1, E2.
  pose proof (logistic_increasing (- 0.1) 0 ltac:(lra)). lra.
Qed.

(** The score with the labels compared as they are spelled, for labels
    that spell germany and male only as "Germany" and "Male". *)
Lemma heuristic_score_on_spelled_labels (f : Features) :
  (lower (pred_geo f) = "germany" -> pred_geo f = "Germany") ->
  (lower (pred_gender f) = "male" -> pred_gender f = "Male") ->
  heuristic_score f = spec_score f.
Proof.
  intros Hgeo Hgen. rewrite heuristic_score_closed_form.
  unfold caseless_score, spec_score.
  change (lower "Germany") with "germany". change (lower "Male") with "male".
  assert (Eg : String.eqb (lower (pred_geo f)) "germany"
               = String.eqb (pred_geo f) "Germany").
  { destruct (String.eqb_spec (lower (pred_geo f)) "germany") as [E | E].
    - rewrite (Hgeo E). reflexivity.
    - symmetry. apply String.eqb_neq. intros E'. apply E. now rewrite E'. }
  assert (Em : String.eqb (lower (pred_gender f)) "male"
               = String.eqb (pred_gender f) "Male").
  { destruct (String.eqb_spec (lower (pred_gender f)) "male") as [E | E].
    - rewrite (Hgen E). reflexivity.
    - symmetry. apply String.eqb_neq. intros E'. apply E. now rewrite E'. }
  now rewrite Eg, Em.
Qed.

(** C6. For every customer of the prediction tab whose geography is
    France, Germany or Spain and whose gender is Male or Female, the
    score of the heuristic is the closed form with the stated
    coefficients ((age-40)*0.02, (balance-50000)/200000,
    (num_products-1)*0.15, 0.4 if inactive else -0.1, 0.1 for "Germany",
    0.05 for "Male"), and the estimate is that score passed through the
    logistic function and clamped to [0,1]. *)
Theorem fallback_estimate_is_the_closed_form (f : Features) :
  In (pred_geo f) ["France"; "Germany"; "Spain"] ->
  In (pred_gender f) ["Male"; "Female"] ->
  heuristic_score f = spec_score f /\ predict None f = spec_prob f.
Proof.
  intros Hgeo Hgen.
  assert (Hs : heuristic_score f = spec_score f).
  { apply heuristic_score_on_spelled_labels.
    - destruct Hgeo as [<- | [<- | [<- | []]]]; cbn; congruence.
    - destruct Hgen as [<- | [<- | []]]; cbn; congruence. }
  split; [exact Hs|].
  rewrite predict_heuristic, Hs. unfold spec_prob. symmetry.
  apply clamp01_inside.
  pose proof (logistic_bounds (spec_score f)). lra.
Qed.

(** An inactive man in Germany, aged 55, with balance 120000 and three
    products: every term of the closed form is in play. *)
Lemma fallback_estimate_is_the_closed_form_witness :
  heuristic_score german_customer = spec_score german_customer
  /\ predict None german_customer = spec_prob german_customer.
Proof.
  apply (fallback_estimate_is_the_closed_form german_customer).
  - cbn. tauto.
  - cbn. tauto.
Defined.

(** * Further properties *)

(** ** The filter chain, row by row *)

Lemma truthy_false_iff {A : Type} (l : list A) : truthy l = false <-> l = [].
Proof. destruct l; cbn; split; congruence. Qed.

Lemma isin_Z_true (x : Z) (l : list Z) : isin Z.eqb x l = true <-> In x l.
Proof.
  unfold isin. rewrite existsb_exists. split.
  - intros [y [Hy He]]. apply Z.eqb_eq in He. now subst.
  - intros H. exists x. split; [exact H|apply Z.eqb_refl].
Qed.

Lemma keeps_geography_iff (c : Criteria) (df : DataFrame) (r : Row) :
  In r df ->
  (keeps_geography c df r = true
   <-> geographies c = [] \/ In (Geography r) (geographies c)).
Proof.
  intros Hr. unfold keeps_geography.
  destruct (geographies c) as [| g gs] eqn:E; cbn [truthy negb].
  - split; [now left|]. intros _.
    apply isin_string_true, in_unique, in_map, Hr.
  - rewrite isin_string_true. split; [now right|].
    intros [H | H]; [discriminate|exact H].
Qed.

Lemma keeps_gender_iff (c : Criteria) (r : Row) :
  keeps_gender c r = true <-> genders c = [] \/ In (Gender r) (genders c).
Proof.
  unfold keeps_gender. destruct (genders c) as [| g gs] eqn:E; cbn [truthy].
  - split; [now left|reflexivity].
  - rewrite isin_string_true. split; [now right|].
    intros [H | H]; [discriminate|exact H].
Qed.

Lemma keeps_products_iff (c : Criteria) (r : Row) :
  keeps_products c r = true
  <-> products_sel c = [] \/ In (NumOfProducts r) (products_sel c).
Proof.
  unfold keeps_products. destruct (products_sel c) as [| p ps] eqn:E; cbn [truthy].
  - split; [now left|reflexivity].
  - rewrite isin_Z_true. split; [now right|].
    intros [H | H]; [discriminate|exact H].
Qed.

Lemma keeps_active_iff (c : Criteria) (r : Row) :
  keeps_active c r = true <-> (active_only c = true -> IsActiveMember r = 1).
Proof.
  unfold keeps_active. destruct (active_only c).
  - rewrite Z.eqb_eq. split; [auto|]. intros H. now apply H.
  - split; [discriminate|reflexivity].
Qed.

Lemma keeps_age_iff (c : Criteria) (r : Row) :
  keeps_age c r = true <-> fst (age_range c) <= Age r <= snd (age_range c).
Proof. unfold keeps_age. rewrite andb_true_iff, !Z.leb_le. tauto. Qed.

Lemma keeps_balance_iff (c : Criteria) (r : Row) :
  keeps_balance c r = true
  <-> (inject_Z (fst (balance_range c)) <= Balance r
       /\ Balance r <= inject_Z (snd (balance_range c)))%Q.
Proof. unfold keeps_balance. rewrite andb_true_iff, !Qle_bool_iff. tauto. Qed.

(** X1. A customer is shown after filtering exactly when it is in the
    table and meets every selection that is in force: its geography is
    ticked (or none is), it is active if only active members are asked
    for, its gender is ticked (or none is), its age and balance lie within
    the slider pairs, ends included, and its product count is selected (or
    none is). *)
Theorem apply_filters_membership (df : DataFrame) (c : Criteria) (r : Row) :
  In r (apply_filters df c)
  <-> In r df
      /\ (geographies c = [] \/ In (Geography r) (geographies c))
      /\ (active_only c = true -> IsActiveMember r = 1)
      /\ (genders c = [] \/ In (Gender r) (genders c))
      /\ fst (age_range c) <= Age r <= snd (age_range c)
      /\ (inject_Z (fst (balance_range c)) <= Balance r
          /\ Balance r <= inject_Z (snd (balance_range c)))%Q
      /\ (products_sel c = [] \/ In (NumOfProducts r) (products_sel c)).
Proof.
  rewrite apply_filters_filter, filter_In. unfold keeps.
  rewrite !andb_true_iff.
  rewrite keeps_active_iff, keeps_gender_iff, keeps_age_iff, keeps_balance_iff,
    keeps_products_iff.
  split.
  - intros [Hr H]. rewrite (keeps_geography_iff c df r Hr) in H. tauto.
  - intros [Hr H]. split; [exact Hr|].
    rewrite (keeps_geography_iff c df r Hr). tauto.
Qed.

(** ** Filtering twice, and in another order *)

Lemma run_step_filter (s : Step) (c : Criteria) (df l : DataFrame) :
  incl l df -> run_step s c l = filter (step_test s c df) l.
Proof.
  intros Hincl. destruct s; cbn [run_step step_test].
  - rewrite step_geography_filter. apply filter_pointwise. intros r Hr.
    destruct (keeps_geography c l r) eqn:E.
    + symmetry. apply <- (keeps_geography_iff c df r (Hincl r Hr)).
      now apply -> (keeps_geography_iff c l r Hr).
    + symmetry. apply not_true_is_false. intros E'.
      apply -> (keeps_geography_iff c df r (Hincl r Hr)) in E'.
      apply <- (keeps_geography_iff c l r Hr) in E'. congruence.
  - apply step_active_filter.
  - apply step_gender_filter.
  - apply step_age_filter.
  - apply step_balance_filter.
  - apply step_products_filter.
Qed.

Lemma run_steps_filter (c : Criteria) (df : DataFrame) (steps : list Step) :
  forall l, incl l df ->
    run_steps steps c l
    = filter (fun r => forallb (fun s => step_test s c df r) steps) l.
Proof.
  induction steps as [| s steps IH]; intros l Hincl.
  - cbn. symmetry. now apply filter_all_true.
  - unfold run_steps. cbn [fold_left]. fold (run_steps steps c (run_step s c l)).
    rewrite (run_step_filter s c df l Hincl).
    rewrite IH by (intros r Hr; apply Hincl; now apply filter_In in Hr).
    rewrite filter_twice. reflexivity.
Qed.

Lemma forallb_permutation {A : Type} (f : A -> bool) (l l' : list A) :
  Permutation l l' -> forallb f l = forallb f l'.
Proof.
  induction 1 as [| x l l' _ IH | x y l | l l' l'' _ IH1 _ IH2]; cbn.
  - reflexivity.
  - now rewrite IH.
  - now destruct (f x), (f y).
  - congruence.
Qed.

(** X2. Filtering a filtered table again with the same selections changes
    nothing. *)
Theorem apply_filters_idempotent (df : DataFrame) (c : Criteria) :
  apply_filters (apply_filters df c) c = apply_filters df c.
Proof.
  change (apply_filters (apply_filters df c) c)
    with (run_steps script_order c (apply_filters df c)).
  rewrite (run_steps_filter c df script_order).
  - rewrite apply_filters_filter at 1. rewrite filter_twice.
    rewrite apply_filters_filter. apply filter_pointwise. intros r _.
    unfold keeps. cbn [forallb script_order step_test].
    destruct (keeps_geography c df r), (keeps_active c r), (keeps_gender c r),
      (keeps_age c r), (keeps_balance c r), (keeps_products c r); reflexivity.
  - intros r Hr. rewrite apply_filters_filter in Hr. now apply filter_In in Hr.
Qed.

(** X3. The six steps can be run in any order: every arrangement of them
    yields the table the script's order yields. *)
Theorem filter_steps_commute (steps : list Step) (df : DataFrame) (c : Criteria) :
  Permutation steps script_order ->
  run_steps steps c df = apply_filters df c.
Proof.
  intros Hp.
  change (apply_filters df c) with (run_steps script_order c df).
  rewrite !(run_steps_filter c df) by apply incl_refl.
  apply filter_pointwise. intros r _. now apply forallb_permutation.
Qed.

(** The script's order reversed, on [sample_df]. *)
Lemma filter_steps_commute_witness :
  run_steps (rev script_order) germany_only sample_df
  = apply_filters sample_df germany_only.
Proof.
  apply (filter_steps_commute (rev script_order) sample_df germany_only).
  apply Permutation_sym, Permutation_rev.
Defined.

(** ** The headline numbers *)

Lemma filter_length_le {A : Type} (f : A -> bool) (l : list A) :
  (List.length (filter f l) <= List.length l)%nat.
Proof.
  induction l as [| x l IH]; cbn [filter List.length]; [lia|].
  destruct (f x); cbn [List.length]; lia.
Qed.

(** X4. After any filtering, on a table whose churn flag is 0 or 1, the
    number of churned customers shown is at least 0 and at most the number
    of customers shown, which is at most the size of the table. *)
Theorem headline_counts_ordered (df : DataFrame) (c : Criteria) :
  (forall r, In r df -> Exited r = 0 \/ Exited r = 1) ->
  0 <= churned_customers (apply_filters df c)
    <= total_customers (apply_filters df c)
  /\ total_customers (apply_filters df c) <= total_customers df.
Proof.
  intros H. split.
  - unfold churned_customers, total_customers.
    pose proof (total_of_flags (map Exited (apply_filters df c))) as Ht.
    rewrite length_map in Ht. apply Ht. intros x Hx.
    apply in_map_iff in Hx. destruct Hx as [r [<- Hr]]. apply H.
    rewrite apply_filters_filter in Hr. now apply filter_In in Hr.
  - unfold total_customers. rewrite apply_filters_filter.
    pose proof (filter_length_le (keeps c df) df). lia.
Qed.

Lemma headline_counts_ordered_witness :
  0 <= churned_customers (apply_filters sample_df germany_only)
    <= total_customers (apply_filters sample_df germany_only)
  /\ total_customers (apply_filters sample_df germany_only)
     <= total_customers sample_df.
Proof.
  apply (headline_counts_ordered sample_df germany_only).
  intros r Hr. simpl in Hr.
  repeat (destruct Hr as [<- | Hr]; [simpl; lia|]). contradiction.
Defined.

(** ** Clearing every box against ticking every box *)

(** X5. On a table whose geographies are among France, Germany and Spain,
    clearing the three geography boxes shows what ticking all three shows;
    likewise for the two gender boxes on a table whose genders are Male
    and Female. *)
Theorem no_box_ticked_is_every_box_ticked (df : DataFrame) (c : Criteria) :
  (forall r, In r df -> In (Geography r) known_geographies) ->
  (forall r, In r df -> In (Gender r) known_genders) ->
  apply_filters df (set_geographies (geographies_of false false false) c)
  = apply_filters df (set_geographies (geographies_of true true true) c)
  /\ apply_filters df (set_genders (genders_of false false) c)
     = apply_filters df (set_genders (genders_of true true) c).
Proof.
  intros Hgeo Hgen. rewrite !apply_filters_filter. split.
  - apply filter_pointwise. intros r Hr. unfold keeps. f_equal. f_equal.
    f_equal. f_equal. f_equal.
    transitivity true.
    + apply (keeps_geography_iff _ df r Hr). now left.
    + symmetry. apply (keeps_geography_iff _ df r Hr). right. now apply Hgeo.
  - apply filter_pointwise. intros r Hr. unfold keeps. f_equal. f_equal.
    f_equal. f_equal.
    transitivity true.
    + apply keeps_gender_iff. now left.
    + symmetry. apply keeps_gender_iff. right. now apply Hgen.
Qed.

Lemma no_box_ticked_is_every_box_ticked_witness :
  apply_filters sample_df (set_geographies (geographies_of false false false) germany_only)
  = apply_filters sample_df (set_geographies (geographies_of true true true) germany_only)
  /\ apply_filters sample_df (set_genders (genders_of false false) germany_only)
     = apply_filters sample_df (set_genders (genders_of true true) germany_only).
Proof.
  apply (no_box_ticked_is_every_box_ticked sample_df germany_only).
  - intros r Hr. simpl in Hr.
    repeat (destruct Hr as [<- | Hr]; [simpl; tauto|]). contradiction.
  - intros r Hr. simpl in Hr.
    repeat (destruct Hr as [<- | Hr]; [simpl; tauto|]). contradiction.
Defined.

(** ** The product multiselect (line 275) *)

Lemma in_unique_Z (l : list Z) (x : Z) : In x (unique_Z l) <-> In x l.
Proof.
  induction l as [| y l IH]; cbn [unique_Z In]; [tauto|].
  rewrite filter_In, IH, negb_true_iff, Z.eqb_neq.
  destruct (Z.eq_dec y x) as [-> | Hne]; [tauto|].
  split; [tauto|]. intros [H | H]; [tauto|]. right. split; [exact H|congruence].
Qed.

Lemma unique_Z_nodup (l : list Z) : NoDup (unique_Z l).
Proof.
  induction l as [| y l IH]; cbn [unique_Z]; constructor.
  - rewrite filter_In, negb_true_iff, Z.eqb_neq. intros [_ H]. now apply H.
  - now apply NoDup_filter.
Qed.

Lemma in_insert_Z (x k : Z) (ks : list Z) :
  In x (insert_Z k ks) <-> x = k \/ In x ks.
Proof.
  induction ks as [| h t IH]; cbn [insert_Z In].
  - intuition.
  - destruct (k <=? h); cbn [In]; [intuition|]. rewrite IH. intuition.
Qed.

Lemma insert_Z_sorted (k : Z) (ks : list Z) :
  StronglySorted Z.lt ks -> ~ In k ks -> StronglySorted Z.lt (insert_Z k ks).
Proof.
  induction ks as [| h t IH]; cbn [insert_Z]; intros Hs Hk.
  - constructor; constructor.
  - inversion Hs as [| ? ? Ht Hh]; subst.
    assert (Hne : k <> h) by (intros ->; apply Hk; now left).
    destruct (Z.leb_spec k h) as [Hle | Hgt].
    + constructor; [exact Hs|]. constructor; [lia|].
      rewrite Forall_forall in Hh |- *. intros y Hy. specialize (Hh y Hy). lia.
    + constructor.
      * apply IH; [exact Ht|]. intros H. apply Hk. now right.
      * rewrite Forall_forall in Hh |- *. intros y Hy.
        apply in_insert_Z in Hy. destruct Hy as [-> | Hy]; [lia|now apply Hh].
Qed.

Lemma sort_nodup_Z (l : list Z) :
  NoDup l ->
  StronglySorted Z.lt (fold_right insert_Z [] l)
  /\ forall x, In x (fold_right insert_Z [] l) <-> In x l.
Proof.
  induction 1 as [| k l Hk Hnd [IHs IHin]]; cbn [fold_right].
  - split; [constructor|tauto].
  - split.
    + apply insert_Z_sorted; [exact IHs|]. now rewrite IHin.
    + intros x. rewrite in_insert_Z, IHin. cbn [In]. intuition.
Qed.

Lemma strictly_sorted_same_members (l1 : list Z) :
  forall l2, StronglySorted Z.lt l1 -> StronglySorted Z.lt l2 ->
    (forall x, In x l1 <-> In x l2) -> l1 = l2.
Proof.
  induction l1 as [| a l1 IH]; intros l2 H1 H2 Hin.
  - destruct l2 as [| b l2]; [reflexivity|].
    exfalso. apply (Hin b). now left.
  - destruct l2 as [| b l2]; [exfalso; apply (Hin a); now left|].
    inversion H1 as [| ? ? H1' Ha]; subst. inversion H2 as [| ? ? H2' Hb]; subst.
    rewrite Forall_forall in Ha, Hb.
    assert (E : a = b).
    { destruct (proj1 (Hin a) (or_introl eq_refl)) as [E | Hab]; [now symmetry|].
      destruct (proj2 (Hin b) (or_introl eq_refl)) as [E | Hba]; [exact E|].
      specialize (Ha b Hba). specialize (Hb a Hab). lia. }
    subst b. f_equal. apply IH; [exact H1'|exact H2'|].
    intros x. split; intros Hx.
    + destruct (proj1 (Hin x) (or_intror Hx)) as [E | H]; [|exact H].
      specialize (Ha x Hx). lia.
    + destruct (proj2 (Hin x) (or_intror Hx)) as [E | H]; [|exact H].
      specialize (Hb x Hx). lia.
Qed.

Lemma in_prod_options (df : DataFrame) (n : Z) :
  In n (prod_options df) <-> exists r, In r df /\ NumOfProducts r = n.
Proof.
  unfold prod_options.
  rewrite (proj2 (sort_nodup_Z _ (unique_Z_nodup (map NumOfProducts df)))).
  rewrite in_unique_Z. apply in_column.
Qed.

(** X6. The product multiselect offers each product count of the table
    once, in ascending order: they are the labels the product chart
    would show, in the same order. *)
Theorem prod_options_are_product_labels (df : DataFrame) :
  StronglySorted Z.lt (prod_options df)
  /\ (forall n, In n (prod_options df) <-> exists r, In r df /\ NumOfProducts r = n)
  /\ prod_options df = map fst (get_product_churn df).
Proof.
  assert (Hs : StronglySorted Z.lt (prod_options df)).
  { apply sort_nodup_Z, unique_Z_nodup. }
  split; [exact Hs|]. split; [apply in_prod_options|].
  apply strictly_sorted_same_members; [exact Hs| |].
  - unfold get_product_churn. rewrite times100_keys, groupby_mean_keys.
    apply (sorted_keys_sorted _ _ Z.compare_eq_iff Z.compare_antisym Z_cmp_trans).
  - intros n. rewrite in_prod_options.
    unfold get_product_churn. rewrite times100_keys, groupby_mean_keys.
    rewrite (in_sorted_keys _ _ Z.compare_eq_iff). symmetry. apply in_column.
Qed.

(** ** The untouched page *)

Lemma fold_Qmin_below (t : list Q) :
  forall x y, In y (x :: t) -> (fold_left Qmin t x <= y)%Q.
Proof.
  induction t as [| z t IH]; intros x y; cbn [fold_left].
  - intros [<- | []]. apply Qle_refl.
  - intros [Hy | [Hy | Hy]].
    + subst y. eapply Qle_trans; [|apply (Q.le_min_l x z)].
      apply IH. now left.
    + subst y. eapply Qle_trans; [|apply (Q.le_min_r x z)].
      apply IH. now left.
    + apply IH. now right.
Qed.

Lemma fold_Qmin_attained (t : list Q) :
  forall x, In (fold_left Qmin t x) (x :: t).
Proof.
  induction t as [| z t IH]; intros x; cbn [fold_left]; [now left|].
  destruct (IH (Qmin x z)) as [H | H]; [|right; now right].
  rewrite <- H. unfold Qmin, GenericMinMax.gmin.
  destruct (x ?= z)%Q; [now left|now left|right; now left].
Qed.

(** Truncation does not exceed an amount that is not negative. *)
Lemma int_of_Q_floor (q : Q) : (0 <= q)%Q -> (inject_Z (int_of_Q q) <= q)%Q.
Proof.
  destruct q as [n d]. unfold int_of_Q, Qle. cbn [Qnum Qden inject_Z].
  intros Hn. rewrite Z.mul_1_r in Hn |- *.
  rewrite Z.quot_div_nonneg by lia.
  pose proof (Z.mul_div_le n (Z.pos d) ltac:(lia)). lia.
Qed.

(** Truncation leaves a whole amount as it is. *)
Lemma int_of_Q_whole (q : Q) (z : Z) :
  (q == inject_Z z)%Q -> (inject_Z (int_of_Q q) == q)%Q.
Proof.
  destruct q as [n d]. unfold int_of_Q, Qeq. cbn [Qnum Qden inject_Z].
  intros E. rewrite Z.mul_1_r in E |- *. rewrite E.
  rewrite Z.quot_mul by lia. reflexivity.
Qed.

(** X7. On a table with the geographies and genders of the checkboxes
    and no negative balance, the page nobody has touched shows exactly the
    customers whose balance does not exceed the largest balance truncated
    to a whole number; it shows the whole table when the largest balance
    is a whole number. *)
Theorem untouched_page_shows_up_to_truncated_maximum (df : DataFrame) (c : Criteria) :
  default_criteria df = Some c ->
  (forall r, In r df -> In (Geography r) known_geographies) ->
  (forall r, In r df -> In (Gender r) known_genders) ->
  (forall r, In r df -> (0 <= Balance r)%Q) ->
  exists M,
    Q_column_max (map Balance df) = Some M
    /\ apply_filters df c
       = filter (fun r => Qle_bool (Balance r) (inject_Z (int_of_Q M))) df
    /\ ((exists z, (M == inject_Z z)%Q) -> apply_filters df c = df).
Proof.
  intros Hdef Hgeo Hgen Hpos. unfold default_criteria in Hdef.
  destruct (default_age_range df) as [[alo ahi]|] eqn:Ea; [|discriminate].
  destruct (default_balance_range df) as [bal|] eqn:Eb; [|discriminate].
  injection Hdef as <-.
  unfold default_balance_range, Q_column_min, Q_column_max in Eb |- *.
  destruct (map Balance df) as [| x t] eqn:E; [discriminate|].
  injection Eb as <-.
  set (m := fold_left Qmin t x). set (M := fold_left Qmax t x).
  exists M. split; [reflexivity|].
  assert (Hm : (0 <= m)%Q).
  { pose proof (fold_Qmin_attained t x) as Hin. fold m in Hin.
    rewrite <- E in Hin. apply in_map_iff in Hin.
    destruct Hin as [r [<- Hr]]. now apply Hpos. }
  assert (Hchain : apply_filters df
                     (mkCriteria (geographies_of true true true) false
                        (genders_of true true) (alo, ahi)
                        (int_of_Q m, int_of_Q M) (prod_options df))
                   = filter (fun r => Qle_bool (Balance r) (inject_Z (int_of_Q M))) df).
  { rewrite apply_filters_filter. apply filter_pointwise. intros r Hr.
    unfold keeps.
    replace (keeps_geography _ df r) with true
      by (symmetry; apply (keeps_geography_iff _ df r Hr); right; now apply Hgeo).
    replace (keeps_gender _ r) with true
      by (symmetry; apply keeps_gender_iff; right; now apply Hgen).
    replace (keeps_age _ r) with true
      by (symmetry; apply keeps_age_iff;
          apply (default_age_range_brackets df alo ahi Ea r Hr)).
    replace (keeps_products _ r) with true
      by (symmetry; apply keeps_products_iff; right; apply in_prod_options;
          now exists r).
    unfold keeps_active, keeps_balance.
    cbn [active_only balance_range fst snd andb].
    replace (Qle_bool (inject_Z (int_of_Q m)) (Balance r)) with true.
    - cbn [andb]. now rewrite andb_true_r.
    - symmetry. apply Qle_bool_iff. eapply Qle_trans; [apply int_of_Q_floor, Hm|].
      apply fold_Qmin_below. rewrite <- E. now apply in_map. }
  split; [exact Hchain|].
  intros [z Hz]. rewrite Hchain. apply filter_all_true. intros r Hr.
  apply Qle_bool_iff. rewrite (int_of_Q_whole M z Hz).
  apply fold_Qmax_above. rewrite <- E. now apply in_map.
Qed.

Lemma untouched_page_shows_up_to_truncated_maximum_witness :
  exists M,
    Q_column_max (map Balance sample_df) = Some M
    /\ apply_filters sample_df
         (mkCriteria (geographies_of true true true) false (genders_of true true)
            (25, 42) (0, 250898) [1; 2; 3])
       = filter (fun r => Qle_bool (Balance r) (inject_Z (int_of_Q M))) sample_df
    /\ ((exists z, (M == inject_Z z)%Q) ->
        apply_filters sample_df
          (mkCriteria (geographies_of true true true) false (genders_of true true)
             (25, 42) (0, 250898) [1; 2; 3])
        = sample_df).
Proof.
  apply (untouched_page_shows_up_to_truncated_maximum sample_df).
  - reflexivity.
  - intros r Hr. simpl in Hr.
    repeat (destruct Hr as [<- | Hr]; [simpl; tauto|]). contradiction.
  - intros r Hr. simpl in Hr.
    repeat (destruct Hr as [<- | Hr]; [simpl; tauto|]). contradiction.
  - intros r Hr. simpl in Hr.
    repeat (destruct Hr as [<- | Hr]; [unfold Qle; simpl; lia|]). contradiction.
Defined.

(** ** Bars and the counts attached to them *)

Lemma group_sizes_keys {K : Type} (groups : list (K * DataFrame)) :
  map fst (group_sizes groups) = map fst groups.
Proof. unfold group_sizes. rewrite map_map. reflexivity. Qed.

Lemma group_sizes_positive {K : Type} (cmp : K -> K -> comparison)
    (column : Row -> K) (df : DataFrame) :
  (forall a b, cmp a b = Eq <-> a = b) ->
  Forall (fun kc => 1 <= snd kc) (group_sizes (groupby cmp column df)).
Proof.
  intros cmp_eq. unfold group_sizes. rewrite Forall_map, Forall_forall.
  intros g Hg. cbn [snd].
  destruct (groupby_groups cmp column df g cmp_eq Hg) as [Hne _].
  destruct (snd g) as [| r rows] eqn:E; [contradiction|].
  cbn [List.length]. lia.
Qed.

(** X8. The counts attached to the geography bars and to the gender
    slices carry the labels of those bars, in the same order, and none of
    them is 0: a label without customers has neither bar nor count. *)
Theorem plain_counts_line_up_with_bars (df : DataFrame) :
  (map fst (counts_geo df) = map fst (get_geo_churn df)
   /\ Forall (fun kc => 1 <= snd kc) (counts_geo df))
  /\ (map fst (counts_gender df) = map fst (get_gender_churn df)
      /\ Forall (fun kc => 1 <= snd kc) (counts_gender df)).
Proof.
  rewrite counts_geo_group_sizes, counts_gender_group_sizes.
  rewrite !group_sizes_keys, !groupby_keys.
  unfold get_geo_churn, get_gender_churn.
  rewrite !times100_keys, !groupby_mean_keys.
  repeat split; try reflexivity;
    apply group_sizes_positive, String_as_OT.cmp_eq.
Qed.

Lemma filter_keeps_all_iff {A : Type} (p : A -> bool) (l : list A) :
  filter p l = l <-> forall x, In x l -> p x = true.
Proof.
  split; [|apply filter_all_true].
  induction l as [| x l IH]; cbn [filter]; intros E y Hy; [contradiction|].
  destruct (p x) eqn:Ep.
  - injection E as E. destruct Hy as [<- | Hy]; [exact Ep|now apply IH].
  - exfalso. pose proof (filter_length_le p l) as Hlen.
    rewrite E in Hlen. cbn [List.length] in Hlen. lia.
Qed.

Lemma bin_observed_iff (column : Row -> option string) (df : DataFrame) (l : string) :
  existsb (fun r => has_label l (column r)) df = true
  <-> exists r, In r df /\ column r = Some l.
Proof.
  rewrite existsb_exists. split; intros [r [Hr H]]; exists r; split; try exact Hr.
  - unfold has_label in H. destruct (column r) as [l'|]; [|discriminate].
    apply String.eqb_eq in H. now subst.
  - rewrite H. cbn. apply String.eqb_refl.
Qed.

(** X9. The age chart attaches the five age counts to its bars by
    position.  The bars carry the same labels as the counts exactly when
    every age bin holds a customer; as soon as a bin is empty the chart
    has fewer bars than counts.  The same holds of the balance chart. *)
Theorem binned_bars_line_up_iff_every_bin_is_populated (df : DataFrame) :
  (map fst (get_churn_by_age df) = map fst (counts_age df)
   <-> forall l, In l age_labels -> exists r, In r df /\ AgeGroup r = Some l)
  /\ (map fst (get_churn_by_balance df) = map fst (counts_balance df)
      <-> forall l, In l balance_labels ->
                    exists r, In r df /\ BalanceGroup r = Some l).
Proof.
  unfold get_churn_by_age, get_churn_by_balance, counts_age, counts_balance.
  rewrite !binned_chart_keys, !categorical_counts_formula, !map_map.
  cbn [fst]. rewrite !map_id.
  rewrite !filter_keeps_all_iff.
  split; split; intros H l Hl.
  - apply bin_observed_iff. now apply H.
  - apply bin_observed_iff. now apply H.
  - apply bin_observed_iff. now apply H.
  - apply bin_observed_iff. now apply H.
Qed.

(** ** What the binned counts add up to *)

Lemma total_pointwise_add {A : Type} (f g : A -> Z) (l : list A) :
  total (map (fun x => f x + g x) l) = total (map f l) + total (map g l).
Proof.
  induction l as [| x l IH]; cbn [map total fold_right]; [reflexivity|].
  unfold total in IH. rewrite IH. lia.
Qed.

Lemma total_zeros {A : Type} (l : list A) : total (map (fun _ => 0) l) = 0.
Proof. induction l as [| x l IH]; cbn [map total fold_right]; [reflexivity|]. unfold total in IH. lia. Qed.

Lemma one_label_per_row (a : string) (x : Z) (labels : list string) :
  NoDup labels -> In a labels ->
  total (map (fun l => if String.eqb a l then x else 0) labels) = x.
Proof.
  induction 1 as [| h t Hh Ht IH]; cbn [In map total fold_right]; [tauto|].
  intros [-> | Hin].
  - rewrite String.eqb_refl.
    replace (map (fun l => if String.eqb a l then x else 0) t)
      with (map (fun _ : string => 0) t).
    + pose proof (total_zeros t) as Hz. unfold total in Hz. rewrite Hz. lia.
    + apply map_ext_in. intros l Hl.
      destruct (String.eqb_spec a l) as [-> | _]; [contradiction|reflexivity].
  - destruct (String.eqb_spec a h) as [-> | _]; [contradiction|].
    unfold total in IH. rewrite IH by exact Hin. lia.
Qed.

Lemma occurrences_sum (labels : list string) (col : list (option string)) :
  NoDup labels -> (forall l, In (Some l) col -> In l labels) ->
  total (map (fun l => occurrences String.eqb l col) labels)
  = Z.of_nat (List.length (filter (fun o => match o with
                                           | Some _ => true
                                           | None => false
                                           end) col)).
Proof.
  intros Hnd. induction col as [| o col IH]; intros Hin.
  - cbn. apply total_zeros.
  - assert (IH' := IH (fun l H => Hin l (or_intror H))).
    destruct o as [a|].
    + assert (E : map (fun l => occurrences String.eqb l (Some a :: col)) labels
                  = map (fun l => (if String.eqb a l then 1 else 0)
                                  + occurrences String.eqb l col) labels).
      { apply map_ext. intros l. unfold occurrences. cbn [filter].
        destruct (String.eqb a l); cbn [List.length]; lia. }
      rewrite E, total_pointwise_add, IH'.
      rewrite (one_label_per_row a 1 labels Hnd (Hin a (or_introl eq_refl))).
      cbn [filter List.length]. lia.
    + cbn [filter]. rewrite <- IH'. f_equal.
Qed.

Lemma AgeGroup_in_labels (r : Row) (l : string) :
  AgeGroup r = Some l -> In l age_labels.
Proof.
  rewrite AgeGroup_cases. unfold age_labels.
  repeat match goal with
         | |- context [?a <=? ?b] => destruct (a <=? b)
         end; intros [= <-]; cbn; tauto.
Qed.

Lemma BalanceGroup_in_labels (r : Row) (l : string) :
  BalanceGroup r = Some l -> In l balance_labels.
Proof.
  rewrite BalanceGroup_cases. unfold balance_labels.
  repeat match goal with
         | |- context [Qle_bool ?a ?b] => destruct (Qle_bool a b)
         end; intros [= <-]; cbn; tauto.
Qed.

Lemma labels_nodup : NoDup age_labels /\ NoDup balance_labels.
Proof.
  split; repeat constructor; cbn; intuition discriminate.
Qed.

Lemma binned_rows (column : Row -> option string) (p : Row -> bool) (df : DataFrame) :
  (forall r, p r = match column r with Some _ => true | None => false end) ->
  List.length (filter (fun o : option string => match o with
                                         | Some _ => true
                                         | None => false
                                         end) (map column df))
  = List.length (filter p df).
Proof.
  intros H. induction df as [| r df IH]; cbn [map filter]; [reflexivity|].
  rewrite H. destruct (column r); cbn [List.length]; now rewrite IH.
Qed.

(** X10. The five age counts add up to the number of customers older than
    18, and the five balance counts to the number of customers with a
    balance above 0: customers on or below the lowest edge are in no
    count. *)
Theorem binned_counts_add_up_to_rows_above_lowest_edge (df : DataFrame) :
  total (map snd (counts_age df))
  = Z.of_nat (List.length (filter (fun r => 18 <? Age r) df))
  /\ total (map snd (counts_balance df))
     = Z.of_nat (List.length
                   (filter (fun r => negb (Qle_bool (Balance r) 0)) df)).
Proof.
  unfold counts_age, counts_balance. rewrite !categorical_counts_formula.
  rewrite !map_map. cbn [snd]. destruct labels_nodup as [Ha Hb]. split.
  - rewrite (occurrences_sum age_labels _ Ha).
    + f_equal. apply binned_rows. intros r. rewrite AgeGroup_cases.
      destruct (Z.leb_spec (Age r) 18) as [H | H].
      * apply Z.ltb_ge. exact H.
      * replace (18 <? Age r) with true by (symmetry; now apply Z.ltb_lt).
        repeat match goal with
               | |- context [?a <=? ?b] => destruct (a <=? b)
               end; reflexivity.
    + intros l Hl. apply in_map_iff in Hl. destruct Hl as [r [Hr _]].
      now apply (AgeGroup_in_labels r).
  - rewrite (occurrences_sum balance_labels _ Hb).
    + f_equal. apply binned_rows. intros r. rewrite BalanceGroup_cases.
      destruct (Qle_bool (Balance r) 0); cbn [negb]; [reflexivity|].
      repeat match goal with
             | |- context [Qle_bool ?a ?b] => destruct (Qle_bool a b)
             end; reflexivity.
    + intros l Hl. apply in_map_iff in Hl. destruct Hl as [r [Hr _]].
      now apply (BalanceGroup_in_labels r).
Qed.

(** ** The headline rate as an average of the bars *)

Section WeightedGroups.
Variable K : Type.
Variable cmp : K -> K -> comparison.
Hypothesis cmp_eq : forall a b, cmp a b = Eq <-> a = b.
Hypothesis cmp_antisym : forall a b, cmp b a = CompOpp (cmp a b).
Hypothesis cmp_trans : forall a b c, cmp a b = Lt -> cmp b c = Lt -> cmp a c = Lt.

Lemma one_key_per_row (k : K) (x : Z) (ks : list K) :
  NoDup ks -> In k ks ->
  total (map (fun k' => if same_key cmp k k' then x else 0) ks) = x.
Proof.
  induction 1 as [| h t Hh Ht IH]; cbn [In map total fold_right]; [tauto|].
  intros [-> | Hin].
  - replace (same_key cmp k k) with true
      by (symmetry; now apply (same_key_true _ _ cmp_eq)).
    replace (map (fun k' => if same_key cmp k k' then x else 0) t)
      with (map (fun _ : K => 0) t).
    + pose proof (total_zeros t) as Hz. unfold total in Hz. rewrite Hz. lia.
    + apply map_ext_in. intros k' Hk'.
      destruct (same_key cmp k k') eqn:E; [|reflexivity].
      apply (same_key_true _ _ cmp_eq) in E. subst k'. contradiction.
  - destruct (same_key cmp k h) eqn:E.
    + apply (same_key_true _ _ cmp_eq) in E. subst h. contradiction.
    + unfold total in IH. rewrite IH by exact Hin. lia.
Qed.

(** The churned customers of the groups are the churned customers of the
    table. *)
Lemma groups_cover_churned (column : Row -> K) (df : DataFrame) :
  total (map (fun g => total (map Exited (snd g))) (groupby cmp column df))
  = total (map Exited df).
Proof.
  unfold groupby. rewrite map_map. cbn [snd].
  assert (Hnd : NoDup (sorted_keys cmp (map column df))).
  { apply (sorted_nodup _ cmp cmp_eq).
    apply (sorted_keys_sorted _ _ cmp_eq cmp_antisym cmp_trans). }
  assert (Hin : forall r, In r df -> In (column r) (sorted_keys cmp (map column df))).
  { intros r Hr. apply (in_sorted_keys _ _ cmp_eq). now apply in_map. }
  revert Hnd Hin. generalize (sorted_keys cmp (map column df)) as ks.
  intros ks Hnd. induction df as [| r df IH]; intros Hin.
  - cbn. apply total_zeros.
  - assert (E : map (fun k => total (map Exited
                      (filter (fun r' => same_key cmp (column r') k) (r :: df)))) ks
                = map (fun k => (if same_key cmp (column r) k then Exited r else 0)
                                + total (map Exited
                                    (filter (fun r' => same_key cmp (column r') k) df)))
                    ks).
    { apply map_ext. intros k. cbn [filter].
      destruct (same_key cmp (column r) k); cbn [map total fold_right];
        unfold total; lia. }
    rewrite E, total_pointwise_add, IH by (intros r' Hr'; apply Hin; now right).
    rewrite one_key_per_row; [|exact Hnd|apply Hin; now left].
    cbn [map total fold_right]. unfold total. lia.
Qed.
End WeightedGroups.

Lemma combine_of_maps {A B C : Type} (f : A -> B) (g : A -> C) (l : list A) :
  combine (map f l) (map g l) = map (fun x => (f x, g x)) l.
Proof. induction l as [| x l IH]; cbn; [reflexivity|]. now rewrite IH. Qed.

Lemma Qsum_pointwise {A : Type} (f g : A -> Q) (l : list A) :
  (forall x, In x l -> (f x == g x)%Q) ->
  (fold_right Qplus 0 (map f l) == fold_right Qplus 0 (map g l))%Q.
Proof.
  induction l as [| x l IH]; intros H; cbn [map fold_right]; [reflexivity|].
  rewrite (H x (or_introl eq_refl)), IH; [reflexivity|].
  intros y Hy. apply H. now right.
Qed.

Lemma Qsum_of_integers {A : Type} (h : A -> Z) (l : list A) :
  (fold_right Qplus 0 (map (fun x => 100 * inject_Z (h x)) l)
   == 100 * inject_Z (total (map h l)))%Q.
Proof.
  induction l as [| x l IH]; cbn [map fold_right total].
  - reflexivity.
  - rewrite IH. unfold total. rewrite inject_Z_plus. ring.
Qed.

(** A bar's rate times its count is 100 times the churned customers of
    its group. *)
Lemma rate_times_size (g : DataFrame) :
  g <> [] ->
  (rate_times_count (option_map (fun v => v * 100) (mean (map Exited g)))
     (Z.of_nat (List.length g))
   == 100 * inject_Z (total (map Exited g)))%Q.
Proof.
  intros Hne. destruct g as [| r g]; [now elim Hne|].
  unfold mean. cbn [map option_map rate_times_count]. cbn [List.length].
  rewrite length_map.
  assert (Hn : ~ (inject_Z (Z.of_nat (S (List.length g))) == 0)%Q).
  { intros E. unfold Qeq in E. cbn [Qnum Qden inject_Z] in E. lia. }
  field. exact Hn.
Qed.

Lemma weighted_total_of_groups {K : Type} (cmp : K -> K -> comparison)
    (column : Row -> K) (df : DataFrame) :
  (forall a b, cmp a b = Eq <-> a = b) ->
  (forall a b, cmp b a = CompOpp (cmp a b)) ->
  (forall a b c, cmp a b = Lt -> cmp b c = Lt -> cmp a c = Lt) ->
  (weighted_total (times100 (groupby_mean_exited cmp column df))
     (group_sizes (groupby cmp column df))
   == churn_rate df * inject_Z (total_customers df))%Q.
Proof.
  intros cmp_eq cmp_antisym cmp_trans.
  unfold weighted_total, times100, groupby_mean_exited, group_sizes.
  rewrite !map_map. cbn [fst snd]. rewrite combine_of_maps, map_map. cbn [fst snd].
  rewrite (Qsum_pointwise _ (fun g => 100 * inject_Z (total (map Exited (snd g))))%Q).
  - rewrite Qsum_of_integers.
    rewrite <- (map_map (fun g => map Exited (snd g)) total).
    rewrite map_map.
    rewrite (groups_cover_churned _ cmp cmp_eq cmp_antisym cmp_trans).
    unfold churn_rate, total_customers, churned_customers.
    destruct df as [| r df]; [cbn; reflexivity|].
    replace (0 <? Z.of_nat (List.length (r :: df))) with true
      by (symmetry; apply Z.ltb_lt; cbn [List.length]; lia).
    assert (Hn : ~ (inject_Z (Z.of_nat (List.length (r :: df))) == 0)%Q).
    { intros E. unfold Qeq in E. cbn [Qnum Qden inject_Z List.length] in E. lia. }
    field. exact Hn.
  - intros g Hg. apply rate_times_size.
    now destruct (groupby_groups cmp column df g cmp_eq Hg).
Qed.

(** X11. The headline churn rate is the average of the bars weighted by
    their counts: over the geography bars, over the gender slices and
    over the product groups, the sum of rate times count equals the
    headline rate times the number of customers. *)
Theorem headline_rate_is_weighted_average (df : DataFrame) :
  (weighted_total (get_geo_churn df) (counts_geo df)
   == churn_rate df * inject_Z (total_customers df))%Q
  /\ (weighted_total (get_gender_churn df) (counts_gender df)
      == churn_rate df * inject_Z (total_customers df))%Q
  /\ (weighted_total (get_product_churn df)
        (group_sizes (groupby Z.compare NumOfProducts df))
      == churn_rate df * inject_Z (total_customers df))%Q.
Proof.
  rewrite counts_geo_group_sizes, counts_gender_group_sizes.
  unfold get_geo_churn, get_gender_churn, get_product_churn.
  repeat split.
  - apply weighted_total_of_groups;
      [apply String_as_OT.cmp_eq|apply string_cmp_antisym|apply string_cmp_trans].
  - apply weighted_total_of_groups;
      [apply String_as_OT.cmp_eq|apply string_cmp_antisym|apply string_cmp_trans].
  - apply weighted_total_of_groups;
      [apply Z.compare_eq_iff|apply Z.compare_antisym|apply Z_cmp_trans].
Qed.

(** ** Small-sample warnings *)

Section ValueCountsEntries.
Variable K : Type.
Variable eqb : K -> K -> bool.
Hypothesis eqb_eq : forall a b, eqb a b = true <-> a = b.

Lemma eqb_false_sym (a b : K) : eqb a b = false -> eqb b a = false.
Proof.
  intros H. apply not_true_is_false. intros E. apply eqb_eq in E. subst b.
  assert (eqb a a = true) by now apply eqb_eq. congruence.
Qed.

Lemma occurrences_positive (k : K) (col : list (option K)) :
  In (Some k) col -> 1 <= occurrences eqb k col.
Proof.
  unfold occurrences. induction col as [| o col IH]; cbn [In filter]; [tauto|].
  intros [-> | H].
  - replace (eqb k k) with true by (symmetry; now apply eqb_eq).
    cbn [List.length]. lia.
  - specialize (IH H). destruct o as [k'|]; [destruct (eqb k' k)|];
      cbn [List.length]; lia.
Qed.

(** The entries of [value_counts]: one per label that occurs, with the
    number of its occurrences. *)
Lemma in_value_counts (k : K) (v : option Z) (col : list (option K)) :
  In (k, v) (value_counts eqb col)
  <-> In (Some k) col /\ v = Some (occurrences eqb k col).
Proof.
  induction col as [| [a|] col IH]; cbn [value_counts In].
  - tauto.
  - rewrite filter_In, IH. cbn [fst]. rewrite negb_true_iff. split.
    + intros [E | [[Hin Hv] Hne]].
      * assert (Ek : a = k) by congruence.
        assert (Ev : v = Some (1 + occurrences eqb a col)) by congruence.
        subst a. split; [now left|]. rewrite Ev. f_equal.
        unfold occurrences. cbn [filter].
        replace (eqb k k) with true by (symmetry; now apply eqb_eq).
        cbn [List.length]. lia.
      * split; [now right|]. rewrite Hv. f_equal.
        unfold occurrences. cbn [filter]. now rewrite (eqb_false_sym _ _ Hne).
    + intros [[E | Hin] Hv].
      * assert (Ek : a = k) by congruence. subst a.
        left. rewrite Hv. f_equal. f_equal.
        unfold occurrences. cbn [filter].
        replace (eqb k k) with true by (symmetry; now apply eqb_eq).
        cbn [List.length]. lia.
      * destruct (eqb k a) eqn:E.
        -- apply eqb_eq in E. subst a. left. rewrite Hv. f_equal. f_equal.
           unfold occurrences. cbn [filter].
           replace (eqb k k) with true by (symmetry; now apply eqb_eq).
           cbn [List.length]. lia.
        -- right. split; [|reflexivity]. split; [exact Hin|].
           rewrite Hv. f_equal. unfold occurrences. cbn [filter].
           now rewrite (eqb_false_sym _ _ E).
  - rewrite IH. unfold occurrences. cbn [filter]. split.
    + intros [Hin Hv]. split; [now right|exact Hv].
    + intros [[E | Hin] Hv]; [discriminate|]. now split.
Qed.
End ValueCountsEntries.

Lemma label_eqb_eq (a b : option string) : label_eqb a b = true <-> a = b.
Proof.
  destruct a as [x|], b as [y|]; cbn [label_eqb]; try (split; congruence).
  rewrite String.eqb_eq. split; congruence.
Qed.

Lemma in_small_groups (counts : Series (option string) Z) (min_n : Z)
    (o : option string) (cnt : Z) :
  In (o, cnt) (small_groups counts min_n) <-> In (o, Some cnt) counts /\ cnt < min_n.
Proof.
  unfold small_groups. rewrite in_flat_map. split.
  - intros [[k [v|]] [Hin H]]; cbn [fst snd] in H; [|contradiction].
    destruct (Z.ltb_spec v min_n) as [Hlt | Hge]; [|contradiction].
    destruct H as [E | []]. injection E as <- <-. now split.
  - intros [Hin Hlt]. exists (o, Some cnt). split; [exact Hin|]. cbn [fst snd].
    replace (cnt <? min_n) with true by (symmetry; now apply Z.ltb_lt). now left.
Qed.

Lemma warn_none_iff (series : LabelSeries) (min_n : Z) :
  warn_small_groups series min_n = None
  <-> forall o cnt, In (o, Some cnt) (value_counts_keep_nan series) -> min_n <= cnt.
Proof.
  unfold warn_small_groups. cbv zeta.
  destruct (small_groups (value_counts_keep_nan series) min_n) as [| [o cnt] small] eqn:E;
    cbn [truthy].
  - split; [|reflexivity]. intros _ o cnt Hin.
    destruct (Z.le_gt_cases min_n cnt) as [H | H]; [exact H|].
    assert (Hs : In (o, cnt) (small_groups (value_counts_keep_nan series) min_n))
      by (apply in_small_groups; split; [exact Hin|lia]).
    rewrite E in Hs. contradiction.
  - split; [discriminate|]. intros H.
    assert (Hs : In (o, cnt) (small_groups (value_counts_keep_nan series) min_n))
      by (rewrite E; now left).
    apply in_small_groups in Hs. destruct Hs as [Hin Hlt].
    specialize (H o cnt Hin). lia.
Qed.

Lemma warn_items (series : LabelSeries) (min_n : Z)
    (items : list (option string * Z)) :
  warn_small_groups series min_n = Some items ->
  forall o cnt, In (o, cnt) items
                <-> In (o, Some cnt) (value_counts_keep_nan series) /\ cnt < min_n.
Proof.
  unfold warn_small_groups. cbv zeta.
  destruct (truthy (small_groups (value_counts_keep_nan series) min_n));
    [|discriminate].
  intros [= <-] o cnt. apply in_small_groups.
Qed.

Lemma in_plain_counts (col : list (option string)) (o : option string) (cnt : Z) :
  In (o, Some cnt) (value_counts_keep_nan (Plain col))
  <-> In o col /\ cnt = occurrences label_eqb o (map Some col).
Proof.
  cbn [value_counts_keep_nan]. rewrite (in_value_counts _ _ label_eqb_eq).
  rewrite in_map_iff. split.
  - intros [[o' [E Hin]] Hv]. injection E as ->. split; [exact Hin|congruence].
  - intros [Hin ->]. split; [now exists o|reflexivity].
Qed.

(** X12. On a plain column of labels, the warning names exactly the labels
    that occur in the column fewer than [min_n] times, each with the
    number of its occurrences, NaN counting as a label; it is shown as
    soon as there is one, and so never for an empty column. *)
Theorem small_group_warning_on_labels (col : list (option string)) (min_n : Z) :
  (warn_small_groups (Plain col) min_n = None
   <-> forall o, In o col -> min_n <= occurrences label_eqb o (map Some col))
  /\ (forall items, warn_small_groups (Plain col) min_n = Some items ->
        forall o cnt,
          In (o, cnt) items
          <-> In o col /\ cnt = occurrences label_eqb o (map Some col)
              /\ cnt < min_n)
  /\ warn_small_groups (Plain []) min_n = None.
Proof.
  split; [|split; [|reflexivity]].
  - rewrite warn_none_iff. split.
    + intros H o Ho. apply (H o). apply in_plain_counts. now split.
    + intros H o cnt Hin. apply in_plain_counts in Hin.
      destruct Hin as [Ho ->]. now apply H.
  - intros items Hw o cnt. rewrite (warn_items _ _ _ Hw), in_plain_counts. tauto.
Qed.

Lemma occurrences_of_repeat (n : nat) :
  occurrences label_eqb (Some "all") (map Some (repeat (Some "all") n)) = Z.of_nat n.
Proof.
  unfold occurrences. f_equal.
  induction n as [| n IH]; cbn [repeat map filter]; [reflexivity|].
  cbn [label_eqb]. rewrite String.eqb_refl. cbn [List.length]. now rewrite IH.
Qed.

(** X13. The warning about the whole filtered table is shown exactly when
    the table has between 1 and 29 customers: 30 or more need none, and an
    empty table gets none either. *)
Theorem overall_warning_iff (filtered_df : DataFrame) :
  warn_overall filtered_df = None
  <-> filtered_df = [] \/ (30 <= List.length filtered_df)%nat.
Proof.
  unfold warn_overall. rewrite warn_none_iff. split.
  - intros H. destruct filtered_df as [| r df]; [now left|]. right.
    assert (Hin : In (Some "all", Some (Z.of_nat (List.length (r :: df))))
                    (value_counts_keep_nan
                       (Plain (repeat (Some "all") (List.length (r :: df)))))).
    { apply in_plain_counts. split; [cbn; now left|].
      now rewrite occurrences_of_repeat. }
    specialize (H _ _ Hin). lia.
  - intros H o cnt Hin. apply in_plain_counts in Hin. destruct Hin as [Ho ->].
    destruct H as [-> | H]; [cbn in Ho; contradiction|].
    apply repeat_spec in Ho. subst o. rewrite occurrences_of_repeat. lia.
Qed.

(** X14. The warning of the age chart names every age bin that holds no
    customer, at count 0: it is shown whenever a bin is empty, also for an
    empty table. *)
Theorem age_warning_names_empty_bins (filtered_df : DataFrame) (l : string) :
  In l age_labels ->
  (forall r, In r filtered_df -> AgeGroup r <> Some l) ->
  exists items,
    warn_age_groups filtered_df = Some items /\ In (Some l, 0) items.
Proof.
  intros Hl Habs. unfold warn_age_groups, warn_small_groups. cbv zeta.
  set (counts := value_counts_keep_nan
                   (Categorical age_labels (map AgeGroup filtered_df))).
  assert (Hs : In (Some l, 0) (small_groups counts 30)).
  { apply in_small_groups. split; [|lia]. unfold counts.
    cbn [value_counts_keep_nan]. apply in_or_app. left.
    apply in_map_iff. exists l. split; [|exact Hl]. do 2 f_equal.
    apply occurrences_of_absent_label. intros o Ho.
    apply in_map_iff in Ho. destruct Ho as [r [<- Hr]]. now apply Habs. }
  destruct (small_groups counts 30) as [| item small] eqn:E; [contradiction|].
  cbn [truthy]. exists (item :: small). split; [reflexivity|exact Hs].
Qed.

(** On [young_df], nobody is over 60. *)
Lemma age_warning_names_empty_bins_witness :
  exists items, warn_age_groups young_df = Some items /\ In (Some "60+", 0) items.
Proof.
  apply (age_warning_names_empty_bins young_df "60+").
  - cbn. tauto.
  - intros r [<- | [<- | []]]; vm_compute; discriminate.
Defined.

(** ** The value axis *)

(** [max] over numbers returns one of them, not below any of them. *)
Lemma py_max_greatest (rest : list (option Q)) :
  forall v, Forall (fun o => o <> None) (v :: rest) ->
    exists m, py_max v rest = Some m
              /\ In (Some m) (v :: rest)
              /\ forall q, In (Some q) (v :: rest) -> (q <= m)%Q.
Proof.
  induction rest as [| item rest IH]; intros v Hall.
  - destruct v as [x|]; [|inversion Hall; congruence].
    exists x. split; [reflexivity|]. split; [now left|].
    intros q [[= <-] | []]. apply Qle_refl.
  - inversion Hall as [| ? ? Hv Hrest]; subst.
    inversion Hrest as [| ? ? Hitem Hrest']; subst.
    destruct v as [x|]; [|congruence]. destruct item as [y|]; [|congruence].
    unfold py_max. cbn [fold_left float_gt].
    destruct (Qle_bool y x) eqn:E; cbn [negb].
    + apply Qle_bool_iff in E.
      destruct (IH (Some x) ltac:(constructor; assumption)) as [m [Hm [Hin Hmax]]].
      exists m. split; [exact Hm|]. split.
      * destruct Hin as [Hin | Hin]; [now left|right; now right].
      * intros q [Hq | [Hq | Hq]].
        -- apply Hmax. now left.
        -- injection Hq as <-. eapply Qle_trans; [exact E|]. apply Hmax. now left.
        -- apply Hmax. now right.
    + assert (Hlt : (x < y)%Q).
      { apply Qnot_le_lt. intros H. apply Qle_bool_iff in H. congruence. }
      destruct (IH (Some y) ltac:(constructor; assumption)) as [m [Hm [Hin Hmax]]].
      exists m. split; [exact Hm|]. split; [now right|].
      intros q [Hq | Hq].
      * injection Hq as <-. eapply Qle_trans; [apply Qlt_le_weak, Hlt|].
        apply Hmax. now left.
      * now apply Hmax.
Qed.

Lemma axis_top_bounds {K : Type} (series : Series K Q) (factor : Q) :
  Forall percentage (map snd series) -> (1 <= factor)%Q ->
  exists top, axis_top series factor = Some top
              /\ (forall k q, In (k, Some q) series -> (q <= top)%Q)
              /\ (0 <= top /\ top <= 100 * factor)%Q.
Proof.
  intros Hp Hf. unfold axis_top.
  assert (Hf0 : (0 <= factor)%Q) by (eapply Qle_trans; [|exact Hf]; discriminate).
  destruct series as [| [k0 v0] series]; cbn [map snd].
  - exists (1 * factor)%Q. split; [reflexivity|]. split; [intros k q []|].
    split.
    + apply Qmult_le_0_compat; [discriminate|exact Hf0].
    + apply Qmult_le_compat_r; [discriminate|exact Hf0].
  - cbn [map snd] in Hp.
    assert (Hall : Forall (fun o : option Q => o <> None) (v0 :: map snd series)).
    { eapply Forall_impl; [|exact Hp]. intros [q|] H; [discriminate|contradiction]. }
    destruct (py_max_greatest _ _ Hall) as [m [Hm [Hin Hmax]]].
    rewrite Hm. cbn [option_map]. exists (m * factor)%Q.
    rewrite Forall_forall in Hp. specialize (Hp (Some m) Hin).
    cbn [percentage] in Hp. destruct Hp as [Hm0 Hm100].
    assert (Hgrow : (m <= m * factor)%Q).
    { setoid_replace m with (m * 1)%Q at 1 by ring.
      rewrite (Qmult_comm m 1), (Qmult_comm m factor).
      apply Qmult_le_compat_r; assumption. }
    split; [reflexivity|]. split; [|split].
    + intros k q Hq. eapply Qle_trans; [|exact Hgrow]. apply Hmax.
      change (v0 :: map snd series) with (map snd ((k0, v0) :: series)).
      apply (in_map snd) in Hq. exact Hq.
    + apply Qmult_le_0_compat; assumption.
    + apply Qmult_le_compat_r; assumption.
Qed.

(** X15. On a table whose churn flag is 0 or 1, the value axis of the age,
    balance and geography charts reaches from 0 to a number that no bar of
    the chart exceeds, itself at most 120 for the age chart and 125 for
    the other two. *)
Theorem value_axis_holds_every_bar (df : DataFrame) :
  (forall r, In r df -> Exited r = 0 \/ Exited r = 1) ->
  (exists top, age_axis_top df = Some top
               /\ (forall l q, In (l, Some q) (get_churn_by_age df) -> (q <= top)%Q)
               /\ (0 <= top /\ top <= 120)%Q)
  /\ (exists top, balance_axis_top df = Some top
                  /\ (forall l q, In (l, Some q) (get_churn_by_balance df) ->
                                  (q <= top)%Q)
                  /\ (0 <= top /\ top <= 125)%Q)
  /\ (exists top, geo_axis_top df = Some top
                  /\ (forall l q, In (l, Some q) (get_geo_churn df) -> (q <= top)%Q)
                  /\ (0 <= top /\ top <= 125)%Q).
Proof.
  intros H. split; [|split].
  - destruct (axis_top_bounds (get_churn_by_age df) (12 # 10)) as [top [E [Hb [H0 H1]]]].
    + apply times100_percentages, observed_rates, H.
    + discriminate.
    + exists top. split; [exact E|]. split; [exact Hb|]. split; [exact H0|].
      eapply Qle_trans; [exact H1|]. discriminate.
  - destruct (axis_top_bounds (get_churn_by_balance df) (125 # 100))
      as [top [E [Hb [H0 H1]]]].
    + apply times100_percentages, observed_rates, H.
    + discriminate.
    + exists top. split; [exact E|]. split; [exact Hb|]. split; [exact H0|].
      eapply Qle_trans; [exact H1|]. discriminate.
  - destruct (axis_top_bounds (get_geo_churn df) (125 # 100))
      as [top [E [Hb [H0 H1]]]].
    + apply times100_percentages, groupby_rates; [apply String_as_OT.cmp_eq|exact H].
    + discriminate.
    + exists top. split; [exact E|]. split; [exact Hb|]. split; [exact H0|].
      eapply Qle_trans; [exact H1|]. discriminate.
Qed.

Lemma value_axis_holds_every_bar_witness :
  exists top, geo_axis_top sample_df = Some top
              /\ (forall l q, In (l, Some q) (get_geo_churn sample_df) -> (q <= top)%Q)
              /\ (0 <= top /\ top <= 125)%Q.
Proof.
  apply (value_axis_holds_every_bar sample_df).
  intros r Hr. simpl in Hr.
  repeat (destruct Hr as [<- | Hr]; [simpl; lia|]). contradiction.
Defined.

(** ** The headline comparison *)

Lemma churn_rate_bounds (df : DataFrame) :
  (forall r, In r df -> Exited r = 0 \/ Exited r = 1) ->
  (0 <= churn_rate df /\ churn_rate df <= 100)%Q.
Proof.
  intros H. destruct df as [| r df]; [cbn; split; discriminate|].
  pose proof (headline_rate_percentage (r :: df) ltac:(discriminate) H) as Hp.
  rewrite <- headline_rate_as_mean in Hp by discriminate. exact Hp.
Qed.

Lemma overall_rate_bounds (df : DataFrame) :
  (forall r, In r df -> Exited r = 0 \/ Exited r = 1) ->
  exists overall, overall_churn_rate df = Some overall
                  /\ (0 <= overall /\ overall <= 100)%Q
                  /\ (overall == churn_rate df)%Q.
Proof.
  intros H. unfold overall_churn_rate. destruct df as [| r df].
  - exists 0%Q. cbn. repeat split; try discriminate; reflexivity.
  - replace (0 <? Z.of_nat (List.length (r :: df))) with true
      by (symmetry; apply Z.ltb_lt; cbn [List.length]; lia).
    rewrite <- headline_rate_as_mean by discriminate.
    exists (churn_rate (r :: df)). split; [reflexivity|].
    split; [now apply churn_rate_bounds|reflexivity].
Qed.

(** X16. On a table whose churn flag is 0 or 1, the difference shown
    beside the headline rate is a number between -100 and 100, and it is
    0 when the selections filter nothing out. *)
Theorem delta_churn_bounds (df : DataFrame) (c : Criteria) :
  (forall r, In r df -> Exited r = 0 \/ Exited r = 1) ->
  exists d, delta_churn (apply_filters df c) df = Some d
            /\ (- (100) <= d /\ d <= 100)%Q
            /\ (apply_filters df c = df -> (d == 0)%Q).
Proof.
  intros H. destruct (overall_rate_bounds df H) as [overall [E [[Ho0 Ho1] Heq]]].
  assert (Hf : forall r, In r (apply_filters df c) -> Exited r = 0 \/ Exited r = 1).
  { intros r Hr. apply H. rewrite apply_filters_filter in Hr.
    now apply filter_In in Hr. }
  destruct (churn_rate_bounds _ Hf) as [Hc0 Hc1].
  unfold delta_churn. rewrite E. cbn [option_map].
  exists (churn_rate (apply_filters df c) - overall)%Q.
  split; [reflexivity|]. split; [split|].
  - setoid_replace (- (100))%Q with (0 - 100)%Q by reflexivity.
    unfold Qminus. apply Qplus_le_compat; [exact Hc0|].
    now apply Qopp_le_compat.
  - setoid_replace 100%Q with (100 - 0)%Q by reflexivity.
    unfold Qminus. apply Qplus_le_compat; [exact Hc1|].
    now apply Qopp_le_compat.
  - intros Eid. rewrite Eid, Heq. ring.
Qed.

Lemma delta_churn_bounds_witness :
  exists d, delta_churn (apply_filters sample_df germany_only) sample_df = Some d
            /\ (- (100) <= d /\ d <= 100)%Q
            /\ (apply_filters sample_df germany_only = sample_df -> (d == 0)%Q).
Proof.
  apply (delta_churn_bounds sample_df germany_only).
  intros r Hr. simpl in Hr.
  repeat (destruct Hr as [<- | Hr]; [simpl; lia|]). contradiction.
Defined.

(** ** The prediction tab *)

Lemma predict_in_unit_interval (model_prob : option R) (f : Features) :
  (0 <= predict model_prob f <= 1)%R.
Proof.
  unfold predict. cbv zeta. rewrite <- clamp01_as_max_min. unfold clamp01.
  destruct (Rlt_dec _ 0); [lra|]. destruct (Rlt_dec 1 _); lra.
Qed.

(** X17. Whatever the uploaded model answers, the probability shown lies
    between 0 and 1; an answer of the model that already lies there is
    shown as it is, a smaller one as 0, a larger one as 1. *)
Theorem shown_probability_is_clamped (uploaded_model : option (option Model))
    (f : Features) :
  (0 <= predict_churn uploaded_model f <= 1)%R
  /\ (forall p, model_prob uploaded_model = Some p ->
        ((0 <= p <= 1)%R -> predict_churn uploaded_model f = p)
        /\ ((p < 0)%R -> predict_churn uploaded_model f = 0%R)
        /\ ((1 < p)%R -> predict_churn uploaded_model f = 1%R)).
Proof.
  split; [apply predict_in_unit_interval|].
  intros p Hp. unfold predict_churn, predict. rewrite Hp. cbv zeta.
  rewrite <- clamp01_as_max_min. unfold clamp01.
  repeat split; intros H; destruct (Rlt_dec p 0), (Rlt_dec 1 p); lra.
Qed.

(** X18. The heuristic decides exactly when there is no usable answer: no
    upload, an upload that cannot be unpickled, or a model both of whose
    methods raise.  Otherwise [predict_proba] is heard first, and
    [predict] only when [predict_proba] raises. *)
Theorem model_falls_back_to_heuristic (uploaded_model : option (option Model))
    (f : Features) :
  (model_prob uploaded_model = None
   <-> uploaded_model = None \/ uploaded_model = Some None
       \/ exists model, uploaded_model = Some (Some model)
                        /\ predict_proba model = None
                        /\ model_predict model = None)
  /\ (model_prob uploaded_model = None ->
      predict_churn uploaded_model f = logistic (heuristic_score f))
  /\ (forall model p, uploaded_model = Some (Some model) ->
        predict_proba model = Some p -> model_prob uploaded_model = Some p)
  /\ (forall model, uploaded_model = Some (Some model) ->
        predict_proba model = None ->
        model_prob uploaded_model = model_predict model).
Proof.
  split; [|split; [|split]].
  - destruct uploaded_model as [[model|]|]; cbn [model_prob].
    + destruct (predict_proba model) as [p|] eqn:Ep.
      * split; [discriminate|].
        intros [H | [H | [m [H [H1 _]]]]]; try discriminate.
        injection H as <-. congruence.
      * split.
        -- intros H. right. right. now exists model.
        -- intros [H | [H | [m [H [_ H2]]]]]; try discriminate.
           injection H as <-. exact H2.
    + split; [now (right; left)|reflexivity].
    + split; [now left|reflexivity].
  - intros H. unfold predict_churn. rewrite H. apply predict_heuristic.
  - intros model p -> Hp. cbn [model_prob]. now rewrite Hp.
  - intros model -> Hp. cbn [model_prob]. now rewrite Hp.
Qed.

(** A model that cannot be unpickled. *)
Lemma model_falls_back_to_heuristic_witness :
  predict_churn (Some None) reference_customer
  = logistic (heuristic_score reference_customer).
Proof.
  apply (model_falls_back_to_heuristic (Some None) reference_customer).
  reflexivity.
Defined.

Lemma heuristic_score_as_sum (age balance products : Z) (active : bool)
    (gender geo : string) :
  heuristic_score (mkFeatures age balance products active gender geo)
  = (IZR age * 0.02 + IZR balance / 200000 + IZR products * 0.15
     + (if active then - 0.1 else 0.4)
     + (if String.eqb (lower geo) "germany" then 0.1 else 0)
     + (if String.eqb (lower gender) "male" then 0.05 else 0)
     - (40 * 0.02 + 50000 / 200000 + 0.15))%R.
Proof.
  unfold heuristic_score. cbn [pred_age pred_balance pred_products pred_active
    pred_gender pred_geo]. cbv zeta. rewrite !minus_IZR.
  destruct active, (String.eqb (lower geo) "germany"),
    (String.eqb (lower gender) "male"); cbn [negb]; lra.
Qed.

Lemma logistic_nondecreasing (x y : R) : (x <= y)%R -> (logistic x <= logistic y)%R.
Proof.
  intros [H | ->]; [|apply Rle_refl].
  apply Rlt_le. now apply logistic_increasing.
Qed.

(** X19. Without a model, the estimate never falls when the age, the
    balance or the number of products rises, and it is not lower for an
    inactive customer than for an active one who is otherwise the same,
    as the comments of the heuristic say.  (Over the real numbers the
    rise is strict; the script's doubles level off at 1.0 for large
    scores, so only this much is stated.) *)
Theorem heuristic_estimate_never_falls (age balance products : Z) (active : bool)
    (gender geo : string) :
  (forall age', age <= age' ->
     (predict None (mkFeatures age balance products active gender geo)
      <= predict None (mkFeatures age' balance products active gender geo))%R)
  /\ (forall balance', balance <= balance' ->
        (predict None (mkFeatures age balance products active gender geo)
         <= predict None (mkFeatures age balance' products active gender geo))%R)
  /\ (forall products', products <= products' ->
        (predict None (mkFeatures age balance products active gender geo)
         <= predict None (mkFeatures age balance products' active gender geo))%R)
  /\ (predict None (mkFeatures age balance products true gender geo)
      <= predict None (mkFeatures age balance products false gender geo))%R.
Proof.
  rewrite !predict_heuristic. repeat split.
  - intros age' H. rewrite !predict_heuristic. apply logistic_nondecreasing.
    rewrite !heuristic_score_as_sum. apply IZR_le in H. lra.
  - intros balance' H. rewrite !predict_heuristic. apply logistic_nondecreasing.
    rewrite !heuristic_score_as_sum. apply IZR_le in H. lra.
  - intros products' H. rewrite !predict_heuristic. apply logistic_nondecreasing.
    rewrite !heuristic_score_as_sum. apply IZR_le in H. lra.
  - apply logistic_nondecreasing. rewrite !heuristic_score_as_sum. lra.
Qed.

(** The reference customer, one year older. *)
Lemma heuristic_estimate_never_falls_witness :
  (predict None (mkFeatures 40 50000 1 true "Female" "France")
   <= predict None (mkFeatures 41 50000 1 true "Female" "France"))%R.
Proof.
  apply (heuristic_estimate_never_falls 40 50000 1 true "Female" "France"). lia.
Defined.

(** ** Tightening the selections *)

(** X20. Narrowing the age slider or the balance slider, or ticking the
    active-only box, never brings in a customer: what is shown afterwards
    was shown before, and ticking the box shows exactly the active
    customers of what was shown without it. *)
Theorem tighter_selection_shows_fewer (df : DataFrame) (c : Criteria)
    (age balance : Z * Z) :
  (fst (age_range c) <= fst age -> snd age <= snd (age_range c) ->
   incl (apply_filters df (set_age_range age c)) (apply_filters df c))
  /\ (fst (balance_range c) <= fst balance ->
      snd balance <= snd (balance_range c) ->
      incl (apply_filters df (set_balance_range balance c)) (apply_filters df c))
  /\ apply_filters df (set_active_only true c)
     = filter (fun r => IsActiveMember r =? 1)
         (apply_filters df (set_active_only false c)).
Proof.
  rewrite !apply_filters_filter. split; [|split].
  - intros Hlo Hhi r Hr. apply filter_In in Hr. destruct Hr as [Hr Hk].
    apply filter_In. split; [exact Hr|]. unfold keeps in *.
    rewrite !andb_true_iff in *.
    destruct Hk as [[[[[Hg Ha] Hs] Hage] Hb] Hp].
    repeat split; try assumption.
    apply keeps_age_iff. apply keeps_age_iff in Hage.
    cbn [set_age_range age_range] in Hage. lia.
  - intros Hlo Hhi r Hr. apply filter_In in Hr. destruct Hr as [Hr Hk].
    apply filter_In. split; [exact Hr|]. unfold keeps in *.
    rewrite !andb_true_iff in *.
    destruct Hk as [[[[[Hg Ha] Hs] Hage] Hb] Hp].
    repeat split; try assumption.
    apply keeps_balance_iff. apply keeps_balance_iff in Hb.
    cbn [set_balance_range balance_range] in Hb. destruct Hb as [Hb1 Hb2].
    split.
    + eapply Qle_trans; [|exact Hb1]. now rewrite <- Zle_Qle.
    + eapply Qle_trans; [exact Hb2|]. now rewrite <- Zle_Qle.
  - rewrite filter_twice. apply filter_pointwise. intros r _.
    unfold keeps, keeps_active. cbn [set_active_only active_only].
    change (keeps_geography (set_active_only true c) df r)
      with (keeps_geography (set_active_only false c) df r).
    change (keeps_gender (set_active_only true c) r)
      with (keeps_gender (set_active_only false c) r).
    change (keeps_age (set_active_only true c) r)
      with (keeps_age (set_active_only false c) r).
    change (keeps_balance (set_active_only true c) r)
      with (keeps_balance (set_active_only false c) r).
    change (keeps_products (set_active_only true c) r)
      with (keeps_products (set_active_only false c) r).
    destruct (keeps_geography _ df r), (IsActiveMember r =? 1), (keeps_gender _ r),
      (keeps_age _ r), (keeps_balance _ r), (keeps_products _ r); reflexivity.
Qed.

(** On [sample_df], the age slider drawn in from (18, 92) to (30, 41). *)
Lemma tighter_selection_shows_fewer_witness :
  incl (apply_filters sample_df (set_age_range (30, 41) germany_only))
    (apply_filters sample_df germany_only).
Proof.
  apply (tighter_selection_shows_fewer sample_df germany_only (30, 41) (0, 0));
    cbn; lia.
Defined.

(** ** Charts of a filtered table *)

Lemma chart_label_has_row {K : Type} (cmp : K -> K -> comparison)
    (column : Row -> K) (df : DataFrame) (k : K) :
  (forall a b, cmp a b = Eq <-> a = b) ->
  In k (map fst (times100 (groupby_mean_exited cmp column df))) ->
  exists r, In r df /\ column r = k.
Proof.
  intros cmp_eq H. rewrite times100_keys, groupby_mean_keys in H.
  apply -> (in_sorted_keys _ _ cmp_eq) in H. now apply in_column.
Qed.

(** X21. The charts follow the selections: the geography chart of the
    filtered table shows only ticked geographies and the gender chart only
    ticked genders (any, when none is ticked), and with the active-only
    box ticked the status Inactive is charted at rate 0 and count 0. *)
Theorem charts_follow_the_selections (df : DataFrame) (c : Criteria) :
  (forall l, In l (map fst (get_geo_churn (apply_filters df c))) ->
     geographies c = [] \/ In l (geographies c))
  /\ (forall l, In l (map fst (get_gender_churn (apply_filters df c))) ->
        genders c = [] \/ In l (genders c))
  /\ (active_only c = true ->
      In (0, Some 0%Q) (get_active_churn (apply_filters df c))
      /\ In ("Inactive", 0) (counts_active (apply_filters df c))).
Proof.
  assert (Hrow : forall r, In r (apply_filters df c) -> In r df /\ keeps c df r = true).
  { intros r Hr. rewrite apply_filters_filter in Hr. now apply filter_In in Hr. }
  split; [|split].
  - intros l Hl.
    destruct (chart_label_has_row String.compare Geography _ l
                String_as_OT.cmp_eq Hl) as [r [Hr <-]].
    destruct (Hrow r Hr) as [Hin Hk]. unfold keeps in Hk.
    rewrite !andb_true_iff in Hk. destruct Hk as [[[[[Hg _] _] _] _] _].
    now apply (keeps_geography_iff c df r Hin).
  - intros l Hl.
    destruct (chart_label_has_row String.compare Gender _ l
                String_as_OT.cmp_eq Hl) as [r [Hr <-]].
    destruct (Hrow r Hr) as [Hin Hk]. unfold keeps in Hk.
    rewrite !andb_true_iff in Hk. destruct Hk as [[[[[_ _] Hs] _] _] _].
    now apply keeps_gender_iff.
  - intros Hact.
    assert (Hone : forall r, In r (apply_filters df c) -> IsActiveMember r = 1).
    { intros r Hr. destruct (Hrow r Hr) as [_ Hk]. unfold keeps in Hk.
      rewrite !andb_true_iff in Hk. destruct Hk as [[[[[_ Ha] _] _] _] _].
      now apply keeps_active_iff in Ha. }
    split.
    + apply active_rate_of_absent_status; [cbn; tauto|].
      intros r Hr. rewrite (Hone r Hr). discriminate.
    + rewrite counts_active_formula. left. do 2 f_equal.
      rewrite filter_all_false; [reflexivity|].
      intros r Hr. rewrite (Hone r Hr). reflexivity.
Qed.

(** On [sample_df] with the active-only box ticked. *)
Lemma charts_follow_the_selections_witness :
  In (0, Some 0%Q) (get_active_churn (apply_filters sample_df active_members_only))
  /\ In ("Inactive", 0) (counts_active (apply_filters sample_df active_members_only)).
Proof.
  apply (charts_follow_the_selections sample_df active_members_only). reflexivity.
Defined.

(** X12, tried on a column of two labels. *)
Lemma small_group_warning_on_labels_witness :
  In (Some "France", 1) [(Some "France", 1); (Some "Germany", 1)].
Proof.
  pose proof (small_group_warning_on_labels [Some "France"; Some "Germany"] 30)
    as [_ [H _]].
  apply (H [(Some "France", 1); (Some "Germany", 1)] eq_refl).
  vm_compute. repeat split. now left.
Defined.

(** X17, tried on a model that answers 0.8. *)
Lemma shown_probability_is_clamped_witness :
  predict_churn (Some (Some (mkModel (Some 0.8%R) None))) reference_customer = 0.8%R.
Proof.
  apply (shown_probability_is_clamped
           (Some (Some (mkModel (Some 0.8%R) None))) reference_customer).
  - reflexivity.
  - lra.
Defined.

(** ** The age slider of the prediction tab *)

Lemma insert_Z_length (k : Z) (ks : list Z) :
  List.length (insert_Z k ks) = S (List.length ks).
Proof.
  induction ks as [| h t IH]; cbn [insert_Z List.length]; [reflexivity|].
  destruct (k <=? h); cbn [List.length]; [reflexivity|now rewrite IH].
Qed.

Lemma sort_Z_length (l : list Z) :
  List.length (fold_right insert_Z [] l) = List.length l.
Proof.
  induction l as [| x l IH]; cbn [fold_right List.length]; [reflexivity|].
  now rewrite insert_Z_length, IH.
Qed.

Lemma in_sort_Z (l : list Z) (x : Z) : In x (fold_right insert_Z [] l) <-> In x l.
Proof.
  induction l as [| y l IH]; cbn [fold_right In]; [tauto|].
  rewrite in_insert_Z, IH. intuition.
Qed.

(** Truncation stays between whole bounds. *)
Lemma int_of_Q_between (lo hi : Z) (q : Q) :
  (inject_Z lo <= q)%Q -> (q <= inject_Z hi)%Q -> lo <= int_of_Q q <= hi.
Proof.
  destruct q as [n d]. unfold int_of_Q, Qle. cbn [Qnum Qden inject_Z].
  rewrite !Z.mul_1_r. intros Hlo Hhi. split.
  - rewrite <- (Z.quot_mul lo (Z.pos d)) by lia.
    apply Z.quot_le_mono; lia.
  - rewrite <- (Z.quot_mul hi (Z.pos d)) by lia.
    apply Z.quot_le_mono; lia.
Qed.

Lemma median_between (col : list Z) (lo hi : Z) :
  col <> [] -> (forall x, In x col -> lo <= x <= hi) ->
  exists m, median col = Some m /\ (inject_Z lo <= m /\ m <= inject_Z hi)%Q.
Proof.
  intros Hne Hb. unfold median. cbv zeta.
  destruct col as [| x0 col0] eqn:Ecol; [now elim Hne|]. rewrite <- Ecol in *.
  assert (Hlen : (0 < List.length col)%nat) by (rewrite Ecol; cbn; lia).
  destruct (List.length col) as [| n'] eqn:En; [lia|]. rewrite <- En in *.
  set (n := List.length col) in *.
  set (sorted := fold_right insert_Z [] col).
  assert (Hnth : forall i, (i < n)%nat -> lo <= nth i sorted 0 <= hi).
  { intros i Hi. apply Hb. apply in_sort_Z. apply nth_In.
    unfold sorted. now rewrite sort_Z_length. }
  assert (Hmid : (Nat.div n 2 < n)%nat) by (apply Nat.div_lt; lia).
  destruct (Nat.even n).
  - eexists. split; [reflexivity|].
    pose proof (Hnth (Nat.div n 2) Hmid) as [H1 H2].
    pose proof (Hnth (Nat.div n 2 - 1)%nat ltac:(lia)) as [H3 H4].
    set (a := nth (Nat.div n 2 - 1) sorted 0) in *.
    set (b := nth (Nat.div n 2) sorted 0) in *.
    unfold Qle, Qdiv, Qmult, Qplus, Qinv. cbn [Qnum Qden inject_Z]. split; nia.
  - eexists. split; [reflexivity|].
    pose proof (Hnth (Nat.div n 2) Hmid) as [H1 H2].
    rewrite <- !Zle_Qle. lia.
Qed.

(** X22. For a table with at least one customer, the age slider of the
    prediction tab starts at a value within its range: the truncated
    median of the ages lies between their minimum and their maximum. *)
Theorem pred_age_slider_starts_in_range (df : DataFrame) :
  df <> [] ->
  exists lo hi start,
    pred_age_slider df = Some (lo, hi, start) /\ lo <= start <= hi.
Proof.
  intros Hne. unfold pred_age_slider.
  destruct (default_age_range df) as [[lo hi]|] eqn:Ea.
  - pose proof (default_age_range_brackets df lo hi Ea) as Hb.
    unfold default_age_range in Ea.
    destruct (Z_column_min (map Age df)) as [lo'|]; [|discriminate].
    destruct (Z_column_max (map Age df)) as [hi'|]; [|discriminate].
    injection Ea as -> ->.
    destruct (median_between (map Age df) lo hi) as [m [Em [Hlo Hhi]]].
    + destruct df; [now elim Hne|discriminate].
    + intros x Hx. apply in_map_iff in Hx. destruct Hx as [r [<- Hr]]. now apply Hb.
    + rewrite Em. exists lo, hi, (int_of_Q m). split; [reflexivity|].
      now apply int_of_Q_between.
  - exfalso. unfold default_age_range, Z_column_min, Z_column_max in Ea.
    destruct df as [| r df]; [now elim Hne|]. cbn [map] in Ea. discriminate.
Qed.

Lemma pred_age_slider_starts_in_range_witness :
  exists lo hi start,
    pred_age_slider sample_df = Some (lo, hi, start) /\ lo <= start <= hi.
Proof.
  apply (pred_age_slider_starts_in_range sample_df). discriminate.
Defined.

(** * Rates and counts of the results *)

(** ** Where a rate is reported *)

Lemma zero_count_bin_has_no_bar (labels : list string)
    (column : Row -> option string) (df : DataFrame) (l : string) :
  In (l, 0)
    (counts_or_zeros labels
       (fillna 0 (reindex String.eqb labels
                    (value_counts_categorical labels (map column df))))) ->
  ~ In l (map fst (times100 (map (fun g => (fst g, mean (map Exited (snd g))))
                               (groupby_observed labels column df)))).
Proof.
  rewrite categorical_counts_formula, binned_chart_keys. intros Hc Hbar.
  apply in_map_iff in Hc. destruct Hc as [l' [E _]].
  assert (El : l' = l) by congruence. subst l'.
  assert (Ez : occurrences String.eqb l (map column df) = 0) by congruence.
  apply filter_In in Hbar. destruct Hbar as [_ Hobs].
  apply bin_observed_iff in Hobs. destruct Hobs as [r [Hr Hl]].
  assert (Hin : In (Some l) (map column df)) by (rewrite <- Hl; now apply in_map).
  pose proof (occurrences_positive _ String.eqb String.eqb_eq l _ Hin). lia.
Qed.

Lemma product_label_has_rows (df : DataFrame) (k : Z) :
  In k (map fst (get_product_churn df)) ->
  1 <= sample_count Z.eqb NumOfProducts k df.
Proof.
  intros H. unfold get_product_churn in H.
  destruct (chart_label_has_row Z.compare NumOfProducts df k Z.compare_eq_iff H)
    as [r [Hr Hk]].
  unfold sample_count.
  assert (Hin : In r (filter (fun r' => NumOfProducts r' =? k) df)).
  { apply filter_In. split; [exact Hr|]. now apply Z.eqb_eq. }
  destruct (filter (fun r' => NumOfProducts r' =? k) df) as [| r0 rows];
    [contradiction|]. cbn [List.length]. lia.
Qed.

(** C8, refuted on the table [young_df]: the age bin "60+" has the sample
    count 0, and the age result has no rate for it, neither 0 nor any
    other. *)
Lemma empty_bin_has_a_count_but_no_rate :
  In ("60+", 0) (counts_age young_df)
  /\ forall v, ~ In ("60+", v) (get_churn_by_age young_df).
Proof.
  split.
  - vm_compute. tauto.
  - intros v H. apply (in_map fst) in H. cbn [fst] in H.
    revert H. apply (zero_count_bin_has_no_bar age_labels AgeGroup young_df).
    vm_compute. tauto.
Qed.

(** C8, amended. On a table whose churn flag is 0 or 1, every rate of the
    six aggregations is a number between 0 and 100, and so is the
    headline rate.  Where a group without rows is reported, its rate is
    0: the headline rate of an empty table, and an activity status no row
    has.  An age or balance bin with sample count 0 has no rate at all,
    it is left out of the result, and so is everything on an empty table;
    the geography, gender and product results hold only categories with
    at least one row.  So nothing is ever divided by 0. *)
Theorem churn_rates_in_range_where_reported (df : DataFrame) :
  (forall r, In r df -> Exited r = 0 \/ Exited r = 1) ->
  (Forall percentage (map snd (get_churn_by_age df))
   /\ Forall percentage (map snd (get_churn_by_balance df))
   /\ Forall percentage (map snd (get_geo_churn df))
   /\ Forall percentage (map snd (get_product_churn df))
   /\ Forall percentage (map snd (get_gender_churn df))
   /\ Forall percentage (map snd (get_active_churn df))
   /\ (0 <= churn_rate df /\ churn_rate df <= 100)%Q)
  /\ (churn_rate [] = 0%Q
      /\ get_active_churn [] = [(0, Some 0%Q); (1, Some 0%Q)]
      /\ forall k, In k [0; 1] -> (forall r, In r df -> IsActiveMember r <> k) ->
                   In (k, Some 0%Q) (get_active_churn df))
  /\ ((forall l, In (l, 0) (counts_age df) ->
                 ~ In l (map fst (get_churn_by_age df)))
      /\ (forall l, In (l, 0) (counts_balance df) ->
                    ~ In l (map fst (get_churn_by_balance df)))
      /\ get_churn_by_age [] = [] /\ get_churn_by_balance [] = [])
  /\ ((map fst (counts_geo df) = map fst (get_geo_churn df)
       /\ Forall (fun kc => 1 <= snd kc) (counts_geo df))
      /\ (map fst (counts_gender df) = map fst (get_gender_churn df)
          /\ Forall (fun kc => 1 <= snd kc) (counts_gender df))
      /\ (forall k, In k (map fst (get_product_churn df)) ->
                    1 <= sample_count Z.eqb NumOfProducts k df)
      /\ get_geo_churn [] = [] /\ get_gender_churn [] = []
      /\ get_product_churn [] = []).
Proof.
  intros H. destruct (rates_are_percentages df H) as [Hrange Hzero].
  split; [exact Hrange|]. split; [exact Hzero|]. split; [|split; [|split; [|split]]].
  - split; [|split; [|split; reflexivity]].
    + intros l. apply (zero_count_bin_has_no_bar age_labels AgeGroup df).
    + intros l. apply (zero_count_bin_has_no_bar balance_labels BalanceGroup df).
  - rewrite counts_geo_group_sizes, group_sizes_keys, groupby_keys.
    unfold get_geo_churn. rewrite times100_keys, groupby_mean_keys.
    split; [reflexivity|apply group_sizes_positive, String_as_OT.cmp_eq].
  - rewrite counts_gender_group_sizes, group_sizes_keys, groupby_keys.
    unfold get_gender_churn. rewrite times100_keys, groupby_mean_keys.
    split; [reflexivity|apply group_sizes_positive, String_as_OT.cmp_eq].
  - apply product_label_has_rows.
  - repeat split; reflexivity.
Qed.

(** On [sample_df], whose churn flags are 0 or 1. *)
Lemma churn_rates_in_range_where_reported_witness :
  Forall percentage (map snd (get_churn_by_age sample_df))
  /\ Forall percentage (map snd (get_geo_churn sample_df))
  /\ (0 <= churn_rate sample_df /\ churn_rate sample_df <= 100)%Q.
Proof.
  assert (Hflags : forall r, In r sample_df -> Exited r = 0 \/ Exited r = 1).
  { intros r Hr. simpl in Hr.
    repeat (destruct Hr as [<- | Hr]; [simpl; lia|]). contradiction. }
  pose proof (churn_rates_in_range_where_reported sample_df Hflags)
    as [[Ha [_ [Hg [_ [_ [_ Hh]]]]]] _].
  split; [exact Ha|]. split; [exact Hg|exact Hh].
Defined.

(** ** The categories of a result and their sample counts *)





